(** * axmanmuscle/dsp: the TDOA experiment script and the emitter classes

  A shallow embedding of [exp/exp00_tdoa.py] and [sim/emitters.py].

  Python's [float] and numpy's [float64] are IEEE 754 binary64 numbers.
  They are modelled with the executable specification of binary
  floating-point arithmetic of the Standard Library ([SpecFloat], the
  specification borrowed from Flocq) at precision 53 and maximal exponent
  1024, with rounding to nearest, ties to even.  numpy's [int64] is
  modelled as [Z] with the wrap-around written out. *)

From stdpp Require Import base option list strings gmap relations.
From Stdlib Require Import ZArith QArith Qabs Lia List Bool.
From Stdlib Require Import SpecFloat.
Import ListNotations.

Set Default Proof Using "Type".
Local Open Scope Z_scope.

(** ** Binary64 arithmetic *)

Module Float64.

Definition prec : Z := 53.
Definition emax : Z := 1024.

Definition float := spec_float.

Definition add : float -> float -> float := SFadd prec emax.
Definition sub : float -> float -> float := SFsub prec emax.
Definition mul : float -> float -> float := SFmul prec emax.
Definition div : float -> float -> float := SFdiv prec emax.
Definition sqrt : float -> float := SFsqrt prec emax.
Definition opp : float -> float := SFopp.

(** Python's comparisons [x <= y] and [x == y] on floats; both are [False]
    as soon as one side is NaN. *)
Definition leb : float -> float -> bool := SFleb.
Definition eqb : float -> float -> bool := SFeqb.

Definition zero : float := S754_zero false.

(** Conversion of an integer to the nearest binary64 number: Python's
    [float(n)], the implicit conversion of [n + x], and numpy's
    [astype(float)] on an [int64] entry. *)
Definition of_Z (z : Z) : float := binary_normalize prec emax z 0 false.

(** The sign of an exact zero sum in [fma]: that of the product when the
    addend has the same sign, [+] otherwise (rounding to nearest). *)
Definition fma_szero (sp sz : bool) : bool := if Bool.eqb sp sz then sp else false.

(** Fused multiply-add, [x * y + z] with one rounding: the product is kept
    exact and the sum is rounded. *)
Definition fma (x y z : float) : float :=
  match x, y with
  | S754_nan, _ | _, S754_nan
  | S754_infinity _, S754_zero _
  | S754_zero _, S754_infinity _ => S754_nan
  | S754_infinity sx, S754_infinity sy
  | S754_infinity sx, S754_finite sy _ _
  | S754_finite sx _ _, S754_infinity sy =>
      let s := xorb sx sy in
      match z with
      | S754_nan => S754_nan
      | S754_infinity sz => if Bool.eqb s sz then z else S754_nan
      | _ => S754_infinity s
      end
  | S754_finite sx _ _, S754_zero sy
  | S754_zero sx, S754_finite sy _ _
  | S754_zero sx, S754_zero sy =>
      match z with
      | S754_nan => S754_nan
      | S754_zero sz => S754_zero (fma_szero (xorb sx sy) sz)
      | _ => z
      end
  | S754_finite sx mx ex, S754_finite sy my ey =>
      match z with
      | S754_nan => S754_nan
      | S754_infinity _ => z
      | S754_zero _ => mul x y
      | S754_finite sz mz ez =>
          let sp := xorb sx sy in
          let mp := Pos.mul mx my in
          let ep := ex + ey in
          let e := Z.min ep ez in
          binary_normalize prec emax
            (cond_Zopp sp (Zpos (fst (shl_align mp ep e)))
             + cond_Zopp sz (Zpos (fst (shl_align mz ez e))))
            e false
      end
  end.

(** A binary64 number proper: the mantissa is canonical for its exponent
    and the exponent is in range.  [spec_float] itself is larger. *)
Definition is_binary64 (x : float) : bool := valid_binary prec emax x.

(** Neither an infinity nor NaN: the value is a real number. *)
Definition is_finite (x : float) : bool :=
  match x with
  | S754_zero _ | S754_finite _ _ _ => true
  | S754_infinity _ | S754_nan => false
  end.

Definition is_nan (x : float) : bool :=
  match x with S754_nan => true | _ => false end.

(** The rational number a finite float stands for, in lowest terms. *)
Definition to_Q (x : float) : option Q :=
  match x with
  | S754_zero _ => Some 0%Q
  | S754_finite s m e =>
      let v := match e with
               | Zneg p => Qmake (Zpos m) (2 ^ p)
               | _ => inject_Z (Zpos m * 2 ^ e)
               end in
      Some (Qred (if s then Qopp v else v))
  | _ => None
  end.

(** [x] is a real number and lies within [tol] of the rational [v]. *)
Definition within (x : float) (v tol : Q) : bool :=
  match to_Q x with
  | Some q => Qle_bool (Qabs (q - v)) tol
  | None => false
  end.

(** The last step of [binary_round_aux]: the float for a rounded mantissa
    [m] at exponent [e]. *)
Definition round_result (s : bool) (m e : Z) : float :=
  match m with
  | Z0 => S754_zero s
  | Zpos p => if e <=? emax - prec then S754_finite s p e else S754_infinity s
  | Zneg _ => S754_nan
  end.

(** What [shr] keeps while it shifts the mantissa [M] to the right by [k]
    bits: the quotient, and the round and sticky bits, which are clear when
    nothing but zeros was shifted out. *)
Definition shr_inv (M k : Z) (mrs : shr_record) : Prop :=
  0 <= shr_m mrs /\
  exists rest, M = shr_m mrs * 2 ^ k + rest /\ 0 <= rest < 2 ^ k
               /\ (rest = 0 -> shr_r mrs = false /\ shr_s mrs = false).

(** [+inf] *)
Definition pinf : float := S754_infinity false.


(** The sign bit is clear or the number is NaN; [-0.0] is excluded. *)
Definition sign_clear (x : float) : bool :=
  match x with
  | S754_zero s | S754_infinity s | S754_finite s _ _ => negb s
  | S754_nan => true
  end.

End Float64.

Declare Scope f64_scope.
Delimit Scope f64_scope with f64.
Infix "+" := Float64.add : f64_scope.
Infix "-" := Float64.sub : f64_scope.
Infix "*" := Float64.mul : f64_scope.
Infix "/" := Float64.div : f64_scope.
Infix "<=?" := Float64.leb : f64_scope.
Infix "=?" := Float64.eqb : f64_scope.

(** ** The part of numpy the script uses

  A position is a row vector of three numbers, [np.array([[x, y, z]])].
  numpy gives the array the dtype [int64] when the literals are Python
  integers and [float64] when they are floats. *)

Module Numpy.
Import Float64.

Record vec3 (A : Type) : Type := Vec3 { vx : A; vy : A; vz : A }.
Arguments Vec3 {A} _ _ _.
Arguments vx {A} _.
Arguments vy {A} _.
Arguments vz {A} _.

Definition vmap {A B} (f : A -> B) (v : vec3 A) : vec3 B :=
  Vec3 (f (vx v)) (f (vy v)) (f (vz v)).

Definition vzip {A B C} (f : A -> B -> C) (u : vec3 A) (v : vec3 B) : vec3 C :=
  Vec3 (f (vx u) (vx v)) (f (vy u) (vy v)) (f (vz u) (vz v)).

Inductive ndarray : Type :=
| Int64Array (v : vec3 Z)
| Float64Array (v : vec3 float).

(** [np.array([[x, y, z]])] on Python integers. *)
Definition array_int (x y z : Z) : ndarray := Int64Array (Vec3 x y z).
(** [np.array([[x, y, z]])] on Python floats. *)
Definition array_float (x y z : float) : ndarray := Float64Array (Vec3 x y z).

(** Two's complement wrap-around of [int64] arithmetic. *)
Definition wrap64 (z : Z) : Z := (z + 2 ^ 63) mod 2 ^ 64 - 2 ^ 63.

(** [a.astype(float)] *)
Definition astype_float (a : ndarray) : vec3 float :=
  match a with
  | Int64Array v => vmap of_Z v
  | Float64Array v => v
  end.

(** [x - y] on two arrays of the same shape: integer subtraction when both
    are [int64], otherwise both sides are promoted to [float64]. *)
Definition subtract (x y : ndarray) : ndarray :=
  match x, y with
  | Int64Array u, Int64Array v => Int64Array (vzip (fun p q => wrap64 (p - q)) u v)
  | _, _ => Float64Array (vzip sub (astype_float x) (astype_float y))
  end.

(** [a.ravel()] *)
Definition ravel {A} (v : vec3 A) : list A := [vx v; vy v; vz v].

(** [u.dot(v)] on one-dimensional [float64] arrays: the products are
    accumulated from left to right, starting from [0.0], each step a fused
    multiply-add: the product is not rounded before it is added. *)
Definition dot (u v : list float) : float :=
  fold_left (fun acc p => fma (fst p) (snd p) acc) (combine u v) zero.

(** [np.linalg.norm(a)] with the default [ord] and [axis]: the entries are
    converted to [float64] if they are integers, the array is flattened,
    and the result is [sqrt(dot(a, a))]. *)
Definition linalg_norm (a : ndarray) : float :=
  let x := ravel (astype_float a) in
  sqrt (dot x x).

(** The Euclidean norm of a three-vector, spelled out. *)
Definition norm3 (d : vec3 float) : float :=
  sqrt (fma (vz d) (vz d) (fma (vy d) (vy d) (mul (vx d) (vx d)))).


(** Every entry is a real number.  Integers always are. *)
Definition all_finite (a : ndarray) : bool :=
  match a with
  | Int64Array _ => true
  | Float64Array v => is_finite (vx v) && is_finite (vy v) && is_finite (vz v)
  end.

(** The entries of an [int64] array lie in the range of [int64]. *)
Definition int64_entries (a : ndarray) : bool :=
  match a with
  | Int64Array v =>
      forallb (fun z => (- 2 ^ 63 <=? z) && (z <? 2 ^ 63)) (ravel v)
  | Float64Array _ => true
  end.

(** Some entry is an infinity.  Integers never are. *)
Definition has_inf (a : ndarray) : bool :=
  match a with
  | Int64Array _ => false
  | Float64Array v =>
      negb (is_finite (vx v) || is_nan (vx v))
      || negb (is_finite (vy v) || is_nan (vy v))
      || negb (is_finite (vz v) || is_nan (vz v))
  end.

(** Some entry is NaN.  Integers never are. *)
Definition has_nan (a : ndarray) : bool :=
  match a with
  | Int64Array _ => false
  | Float64Array v => is_nan (vx v) || is_nan (vy v) || is_nan (vz v)
  end.

End Numpy.

(** ** exp/exp00_tdoa.py *)

Module Exp00.
Import Float64 Numpy.

(** [c = 299e6] *)
Definition c : float := of_Z 299000000.

Definition calc_range (x y : ndarray) : float :=
  linalg_norm (subtract x y).

Definition calc_toa (tot : float) (transmit_pos receive_pos : ndarray) : float :=
  let r := calc_range transmit_pos receive_pos in
  add tot (div r c).

(** The local variables of [main] when it reaches its [return]. *)
Record main_locals : Type := MainLocals {
  transmitter : ndarray;
  rec1 : ndarray;
  rec2 : ndarray;
  toa1 : float;
  toa2 : float;
  tdoa : float
}.

Definition main_frame : main_locals :=
  let transmitter := array_int 1 1 0 in
  let rec1 := array_int 50 50 25 in
  let rec2 := array_int 3 100 75 in
  let toa1 := calc_toa (of_Z 0) transmitter rec1 in
  let toa2 := calc_toa (of_Z 0) transmitter rec2 in
  let tdoa := sub toa2 toa1 in
  MainLocals transmitter rec1 rec2 toa1 toa2 tdoa.

(** What a run of a routine leaves behind: the text written to the
    standard output and the returned value. *)
Record outcome : Type := Outcome {
  stdout : list string;
  returned : Z
}.

Definition main : outcome :=
  let frame := main_frame in
  Outcome [] 0.

End Exp00.

(** ** sim/emitters.py

  A Python object is its class and its attribute dictionary; objects live
  in a heap and are known by their address. *)

Module Emitters.
Import Float64 Numpy.

Inductive pyval : Type :=
| PyNone
| PyInt (z : Z)
| PyFloat (x : float)
| PyArray (a : ndarray).

Inductive class : Type := cls_emitter | cls_stat_emitter.

Record object : Type := Object {
  ob_class : class;
  ob_dict : gmap string pyval
}.

Abbreviation loc := positive.
Abbreviation heap := (gmap loc object).

(** [cls.__new__(cls)]: a fresh object without attributes. *)
Definition new (cls : class) (h : heap) : loc * heap :=
  let l := fresh (dom h) in
  (l, <[l := Object cls ∅]> h).

(** [self.name = v] *)
Definition setattr (self : loc) (name : string) (v : pyval) (h : heap) : heap :=
  alter (fun o => Object (ob_class o) (<[name := v]> (ob_dict o))) self h.

(** [self.name] *)
Definition getattr (h : heap) (self : loc) (name : string) : option pyval :=
  o ← h !! self; ob_dict o !! name.

(** [emitter.__init__(self)] *)
Definition emitter_init (self : loc) (h : heap) : heap :=
  let h := setattr self "pos" (PyInt 0) h in
  setattr self "vel" (PyInt 0) h.

(** [stat_emitter.__init__(self, pos)] *)
Definition stat_emitter_init (self : loc) (pos : pyval) (h : heap) : heap :=
  let h := setattr self "pos" pos h in
  setattr self "vel" (PyInt 0) h.

(** The call [emitter()] *)
Definition emitter (h : heap) : loc * heap :=
  let '(self, h) := new cls_emitter h in
  (self, emitter_init self h).

(** The call [stat_emitter(pos)] *)
Definition stat_emitter (pos : pyval) (h : heap) : loc * heap :=
  let '(self, h) := new cls_stat_emitter h in
  (self, stat_emitter_init self pos h).

(** The operations the repository has on emitter objects are the two
    constructors; a step of the heap is one call of either. *)
Inductive step : heap -> heap -> Prop :=
| step_emitter h : step h (emitter h).2
| step_stat_emitter pos h : step h (stat_emitter pos h).2.

(** The attributes every emitter object carries: a position and a zero
    velocity; an object of the base class has the position 0 as well. *)
Definition object_ok (o : object) : Prop :=
  exists pos, ob_dict o = {["pos" := pos; "vel" := PyInt 0]}
              /\ (ob_class o = cls_emitter -> pos = PyInt 0).

End Emitters.

(** * Properties *)

Import Float64 Numpy Exp00 Emitters.

(** ** Signs of binary64 results *)

Ltac f64_unfold := unfold add, sub, mul, div, sqrt, opp, leb, eqb, zero, of_Z in *.

Section Signs.
Implicit Types (x y : float) (s : bool).

Lemma binary_round_aux_cases s mx ex lx :
  let r := binary_round_aux prec emax s mx ex lx in
  r = S754_nan \/ r = S754_zero s \/ r = S754_infinity s
  \/ exists m e, r = S754_finite s m e.
Proof.
  unfold binary_round_aux.
  destruct (shr_fexp prec emax mx ex lx) as [mrs' e'].
  destruct (shr_fexp prec emax _ e' loc_Exact) as [mrs'' e''].
  destruct (shr_m mrs'') as [|m|m]; [tauto | | tauto].
  destruct (e'' <=? emax - prec); [right; right; right; eauto | tauto].
Qed.

Lemma binary_round_cases s m e :
  let r := binary_round prec emax s m e in
  r = S754_nan \/ r = S754_zero s \/ r = S754_infinity s
  \/ exists m' e', r = S754_finite s m' e'.
Proof.
  unfold binary_round. destruct (shl_align m e _) as [mz ez].
  apply binary_round_aux_cases.
Qed.

Lemma sign_clear_round_aux mx ex lx :
  sign_clear (binary_round_aux prec emax false mx ex lx) = true.
Proof.
  destruct (binary_round_aux_cases false mx ex lx) as [H|[H|[H|(m & e & H)]]];
    rewrite H; reflexivity.
Qed.

Lemma sign_clear_round m e : sign_clear (binary_round prec emax false m e) = true.
Proof.
  destruct (binary_round_cases false m e) as [H|[H|[H|(m' & e' & H)]]];
    rewrite H; reflexivity.
Qed.

Lemma abs_round_aux s mx ex lx :
  SFabs (binary_round_aux prec emax s mx ex lx)
  = SFabs (binary_round_aux prec emax false mx ex lx).
Proof.
  unfold binary_round_aux.
  destruct (shr_fexp prec emax mx ex lx) as [mrs' e'].
  destruct (shr_fexp prec emax _ e' loc_Exact) as [mrs'' e''].
  destruct (shr_m mrs'') as [|m|m]; [reflexivity | | reflexivity].
  destruct (e'' <=? emax - prec); reflexivity.
Qed.

Lemma abs_round s m e :
  SFabs (binary_round prec emax s m e) = SFabs (binary_round prec emax false m e).
Proof.
  unfold binary_round. destruct (shl_align m e _) as [mz ez]. apply abs_round_aux.
Qed.

Lemma abs_normalize_opp z e s s' :
  SFabs (binary_normalize prec emax (- z) e s)
  = SFabs (binary_normalize prec emax z e s').
Proof.
  destruct z as [|m|m]; simpl; [reflexivity | | ].
  - apply abs_round.
  - symmetry. apply abs_round.
Qed.

Lemma mul_abs x : (x * x)%f64 = (SFabs x * SFabs x)%f64.
Proof. destruct x as [[]|[]| |[] m e]; reflexivity. Qed.

Lemma sign_clear_square x : sign_clear (x * x)%f64 = true.
Proof.
  rewrite mul_abs. destruct x as [s|s| |s m e]; try reflexivity.
  apply sign_clear_round_aux.
Qed.

(** Accumulating the first square onto [0.0] rounds the square once. *)
Lemma fma_square_zero x : fma x x zero = (x * x)%f64.
Proof. by destruct x as [[]|[]| |[] m e]. Qed.

Lemma fma_square_abs x z : fma x x z = fma (SFabs x) (SFabs x) z.
Proof.
  destruct x as [[]|[]| |[] m e]; reflexivity.
Qed.

Lemma sign_clear_fma_square x z :
  sign_clear z = true -> sign_clear (fma x x z) = true.
Proof.
  intros Hz. rewrite fma_square_abs.
  destruct x as [s|s| |s m e]; simpl SFabs.
  - by destruct z as [[]|[]| |[] mz ez].
  - by destruct z as [[]|[]| |[] mz ez].
  - done.
  - destruct z as [[]|[]| |[] mz ez]; try done.
    + apply (sign_clear_square (S754_finite false m e)).
    + unfold fma. simpl. apply sign_clear_round.
Qed.

Lemma add_zero_l x : sign_clear x = true -> (zero + x)%f64 = x.
Proof. f64_unfold. destruct x as [[]|[]| |[] m e]; simpl; intros; congruence. Qed.

Lemma add_comm x y : (x + y)%f64 = (y + x)%f64.
Proof.
  destruct x as [[]|[]| |sx mx ex], y as [[]|[]| |sy my ey]; try reflexivity.
  unfold add, SFadd. rewrite Z.min_comm. f_equal. apply Z.add_comm.
Qed.

Lemma sign_clear_add x y :
  sign_clear x = true -> sign_clear y = true -> sign_clear (x + y)%f64 = true.
Proof.
  f64_unfold.
  destruct x as [[]|[]| |[] mx ex], y as [[]|[]| |[] my ey];
    simpl; intros; try congruence.
  apply sign_clear_round.
Qed.

Lemma sign_clear_sqrt x : sign_clear x = true -> sign_clear (sqrt x) = true.
Proof.
  f64_unfold.
  destruct x as [[]|[]| |[] m e]; simpl; intros; try congruence.
  destruct (SFsqrt_core_binary prec emax (Z.pos m) e) as [[mz ez] lz].
  apply sign_clear_round_aux.
Qed.

Lemma sign_clear_div_c x : sign_clear x = true -> sign_clear (x / c)%f64 = true.
Proof.
  unfold c. f64_unfold.
  destruct x as [[]|[]| |[] m e]; simpl; intros; try congruence.
  match goal with |- context [SFdiv_core_binary ?p ?q ?a ?b ?c ?d] =>
    destruct (SFdiv_core_binary p q a b c d) as [[mz ez] lz] end.
  apply sign_clear_round_aux.
Qed.

End Signs.

(** ** Rounding to nearest

    What [binary_round] returns, read off its code: the mantissa is shifted
    to the exponent [fexp] asks for, rounded, and shifted once more if the
    rounding produced one more digit. *)

Section Rounding.

Lemma digits2_pos_bounds p :
  2 ^ (Z.pos (digits2_pos p) - 1) <= Z.pos p < 2 ^ Z.pos (digits2_pos p).
Proof.
  induction p as [p IH|p IH|]; simpl digits2_pos; [| |simpl; lia].
  all: rewrite Pos2Z.inj_succ; unfold Z.succ.
  all: replace (Z.pos (digits2_pos p) + 1 - 1) with (Z.succ (Z.pos (digits2_pos p) - 1)) by lia.
  all: replace (Z.pos (digits2_pos p) + 1) with (Z.succ (Z.pos (digits2_pos p))) by lia.
  all: rewrite !Z.pow_succ_r by lia; lia.
Qed.

Lemma Zdigits2_nonneg m : 0 <= Zdigits2 m.
Proof. destruct m; simpl; lia. Qed.

Lemma Zdigits2_bounds m : 0 < m -> 2 ^ (Zdigits2 m - 1) <= m < 2 ^ Zdigits2 m.
Proof. destruct m as [|p|p]; try lia. intros _. apply digits2_pos_bounds. Qed.

Lemma Zdigits2_le m k : 0 <= k -> 0 <= m < 2 ^ k -> Zdigits2 m <= k.
Proof.
  intros Hk [H0 Hm]. destruct (Z.eq_dec m 0) as [->|Hne]; [simpl; lia|].
  pose proof (Zdigits2_bounds m ltac:(lia)) as [Hlo _].
  pose proof (Zdigits2_nonneg m).
  destruct (Z_lt_le_dec k (Zdigits2 m)) as [Hlt|]; [|lia].
  assert (2 ^ k <= 2 ^ (Zdigits2 m - 1)) by (apply Z.pow_le_mono_r; lia). lia.
Qed.

Lemma Zdigits2_gt m k : 0 <= k -> 2 ^ k <= m -> k < Zdigits2 m.
Proof.
  intros Hk Hm. assert (0 < 2 ^ k) by (apply Z.pow_pos_nonneg; lia).
  pose proof (Zdigits2_bounds m ltac:(lia)) as [_ Hhi].
  pose proof (Zdigits2_nonneg m).
  destruct (Z_lt_le_dec k (Zdigits2 m)) as [|Hle]; [lia|].
  assert (2 ^ Zdigits2 m <= 2 ^ k) by (apply Z.pow_le_mono_r; lia). lia.
Qed.

Lemma iter_pos_shift_inv {A} (f : A -> A) (P : Z -> A -> Prop) :
  (forall k x, 0 <= k -> P k x -> P (k + 1) (f x)) ->
  forall p k x, 0 <= k -> P k x -> P (k + Z.pos p) (iter_pos f p x).
Proof.
  intros Hstep. induction p as [p IH|p IH|]; intros k x Hk HP; simpl.
  - replace (k + Z.pos p~1) with (k + 1 + Z.pos p + Z.pos p) by lia.
    apply IH; [lia|]. apply IH; [lia|]. by apply Hstep.
  - replace (k + Z.pos p~0) with (k + Z.pos p + Z.pos p) by lia.
    apply IH; [lia|]. by apply IH.
  - by apply Hstep.
Qed.

Lemma shr_inv_start m : 0 <= m -> shr_inv m 0 (Build_shr_record m false false).
Proof. intros Hm. split; [done|]. exists 0. simpl. lia. Qed.

Lemma shr_inv_step M k mrs : 0 <= k -> shr_inv M k mrs -> shr_inv M (k + 1) (shr_1 mrs).
Proof.
  intros Hk [Hm (rest & HM & Hrest & Hex)]. destruct mrs as [m r s]. simpl in *.
  assert (0 < 2 ^ k) as Hpow by (apply Z.pow_pos_nonneg; lia).
  assert (2 ^ (k + 1) = 2 * 2 ^ k) as Hsucc by (apply Z.pow_succ_r; lia).
  destruct m as [|[p|p|]|p]; unfold shr_inv; simpl; try lia.
  - split; [lia|]. exists rest. rewrite Hsucc. split; [lia|]. split; [lia|].
    intros H0. destruct (Hex H0) as [-> ->]. done.
  - split; [lia|]. exists (2 ^ k + rest). rewrite Hsucc. split; [lia|]. split; lia.
  - split; [lia|]. exists rest. rewrite Hsucc. split; [lia|]. split; [lia|].
    intros H0. destruct (Hex H0) as [-> ->]. done.
  - split; [lia|]. exists (2 ^ k + rest). rewrite Hsucc. split; [lia|]. split; lia.
Qed.

Lemma shr_spec m e n :
  0 <= m ->
  exists mrs, shr (Build_shr_record m false false) e n = (mrs, e + Z.max n 0)
              /\ shr_inv m (Z.max n 0) mrs.
Proof.
  intros Hm. destruct n as [|p|p]; simpl.
  - eexists. split; [f_equal; lia|]. by apply shr_inv_start.
  - eexists. split; [reflexivity|].
    replace (Z.max (Z.pos p) 0) with (0 + Z.pos p) by lia.
    apply (iter_pos_shift_inv shr_1 (shr_inv m)); [intros; by apply shr_inv_step|lia|].
    by apply shr_inv_start.
  - eexists. split; [f_equal; lia|]. by apply shr_inv_start.
Qed.

Lemma shr_inv_div M k mrs : 0 <= k -> shr_inv M k mrs -> shr_m mrs = M / 2 ^ k.
Proof.
  intros Hk [_ (rest & HM & Hrest & _)].
  apply (Z.div_unique M (2 ^ k) (shr_m mrs) rest); [lia|lia].
Qed.

Lemma round_nearest_even_bounds mrs :
  shr_m mrs <= round_nearest_even (shr_m mrs) (loc_of_shr_record mrs) <= shr_m mrs + 1.
Proof.
  destruct mrs as [m [] []]; simpl; try lia. destruct (Z.even m); lia.
Qed.

Lemma shr_inv_round_exact M k mrs :
  0 <= k -> shr_inv M k mrs -> M mod 2 ^ k = 0 ->
  round_nearest_even (shr_m mrs) (loc_of_shr_record mrs) = shr_m mrs.
Proof.
  intros Hk [_ (rest & HM & Hrest & Hex)] Hmod.
  assert (rest = 0) as H0.
  { pose proof (Z.mod_unique M (2 ^ k) (shr_m mrs) rest ltac:(lia) ltac:(lia)). lia. }
  destruct (Hex H0) as [Hr Hs]. destruct mrs as [m r s]. simpl in *. by subst.
Qed.


Lemma pow2_pos k : 0 <= k -> 0 < 2 ^ k.
Proof. intros. apply Z.pow_pos_nonneg; lia. Qed.

Lemma iter_xO_pow m d : Z.pos (Pos.iter xO m d) = Z.pos m * 2 ^ Z.pos d.
Proof.
  induction d as [|d IH] using Pos.peano_ind.
  - simpl. lia.
  - rewrite Pos.iter_succ, Pos2Z.inj_xO, IH, Pos2Z.inj_succ, Z.pow_succ_r; lia.
Qed.

Lemma shl_align_spec m e e' :
  let '(m', e'') := shl_align m e e' in
  e'' = Z.min e e' /\ Z.pos m' = Z.pos m * 2 ^ (e - e'').
Proof.
  unfold shl_align. destruct (e' - e) as [|d|d] eqn:Hd.
  - split; [lia|]. replace (e - e) with 0 by lia. simpl. lia.
  - split; [lia|]. replace (e - e) with 0 by lia. simpl. lia.
  - split; [lia|]. rewrite iter_xO_pow. do 2 f_equal. lia.
Qed.

Lemma Zdigits2_shift m j :
  0 < m -> 0 <= j -> Zdigits2 (m * 2 ^ j) = Zdigits2 m + j.
Proof.
  intros Hm Hj. pose proof (Zdigits2_bounds m Hm) as [Hlo Hhi].
  pose proof (pow2_pos j Hj) as Hp.
  assert (1 <= Zdigits2 m) as Hd by (destruct m; simpl; lia).
  apply Z.le_antisymm.
  - apply Zdigits2_le; [lia|]. rewrite Z.pow_add_r by lia. nia.
  - assert (Zdigits2 m - 1 + j < Zdigits2 (m * 2 ^ j)); [|lia].
    apply Zdigits2_gt; [lia|]. rewrite Z.pow_add_r by lia. nia.
Qed.

Lemma fexp_unfold z : fexp prec emax z = Z.max (z - 53) (-1074).
Proof. reflexivity. Qed.

Lemma binary_round_aux_trace s mx ex :
  0 < mx ->
  let k := Z.max (fexp prec emax (Zdigits2 mx + ex) - ex) 0 in
  exists m1,
    mx / 2 ^ k <= m1 <= mx / 2 ^ k + 1
    /\ (mx mod 2 ^ k = 0 -> m1 = mx / 2 ^ k)
    /\ let e1 := ex + k in
       let k2 := Z.max (fexp prec emax (Zdigits2 m1 + e1) - e1) 0 in
       binary_round_aux prec emax s mx ex loc_Exact
       = round_result s (m1 / 2 ^ k2) (e1 + k2).
Proof.
  intros Hmx k. unfold binary_round_aux, shr_fexp. simpl shr_record_of_loc.
  destruct (shr_spec mx ex (fexp prec emax (Zdigits2 mx + ex) - ex) ltac:(lia))
    as (mrs & -> & Hinv).
  fold k in Hinv |- *.
  assert (0 <= k) as Hk by lia.
  pose proof (shr_inv_div _ _ _ Hk Hinv) as Hdiv.
  set (m1 := round_nearest_even (shr_m mrs) (loc_of_shr_record mrs)).
  pose proof (round_nearest_even_bounds mrs) as Hb. fold m1 in Hb.
  exists m1. split; [lia|]. split.
  { intros Hmod. unfold m1. rewrite <- Hdiv. by eapply shr_inv_round_exact. }
  set (e1 := ex + k).
  set (k2 := Z.max (fexp prec emax (Zdigits2 m1 + e1) - e1) 0).
  assert (0 <= m1) as Hm1 by (destruct Hinv; lia).
  destruct (shr_spec m1 e1 (fexp prec emax (Zdigits2 m1 + e1) - e1) Hm1)
    as (mrs2 & -> & Hinv2).
  fold k2 in Hinv2 |- *.
  assert (0 <= k2) as Hk2 by lia.
  rewrite (shr_inv_div _ _ _ Hk2 Hinv2). reflexivity.
Qed.

Lemma canonical_digits mt et :
  bounded prec emax mt et = true ->
  Z.max (Z.pos (digits2_pos mt) + et - 53) (-1074) = et /\ et <= 971.
Proof.
  unfold bounded, canonical_mantissa. rewrite andb_true_iff, Z.eqb_eq, Z.leb_le.
  rewrite fexp_unfold. unfold emax, prec. lia.
Qed.

(** Rounding a number at least as large as a binary64 number does not go
    below it. *)
Lemma binary_round_up s W e0 mt et :
  bounded prec emax mt et = true ->
  e0 <= et ->
  Z.pos mt * 2 ^ (et - e0) <= Z.pos W ->
  let r := binary_round prec emax s W e0 in
  r = S754_infinity s
  \/ exists m' e', r = S754_finite s m' e' /\ (et < e' \/ e' = et /\ (mt <= m')%positive).
Proof.
  intros Hb He HW. destruct (canonical_digits _ _ Hb) as [Hcan Hmax].
  pose proof (digits2_pos_bounds mt) as [Htlo Hthi].
  pose proof (digits2_pos_bounds W) as [HWlo HWhi].
  set (dt := Z.pos (digits2_pos mt)) in *. set (dW := Z.pos (digits2_pos W)) in *.
  pose proof (pow2_pos (et - e0) ltac:(lia)) as Hp0.
  assert (dt + (et - e0) <= dW) as Hd.
  { assert (dt - 1 + (et - e0) < Zdigits2 (Z.pos W)); [|simpl in *; lia].
    apply Zdigits2_gt; [lia|]. rewrite Z.pow_add_r by lia. nia. }
  unfold binary_round. fold dW. rewrite fexp_unfold.
  set (E := Z.max (dW + e0 - 53) (-1074)).
  assert (et <= E) as HE by lia.
  pose proof (shl_align_spec W e0 E) as Hal.
  destruct (shl_align W e0 E) as [mz ez]. destruct Hal as [-> Hmz].
  replace (Z.min e0 E) with e0 in * by lia.
  replace (e0 - e0) with 0 in Hmz by lia. simpl in Hmz.
  assert (mz = W) as -> by lia. clear Hmz.
  destruct (binary_round_aux_trace s (Z.pos W) e0 ltac:(lia)) as (m1 & Hm1 & _ & ->).
  simpl Zdigits2 in *. fold dW in Hm1 |- *. rewrite !fexp_unfold in *. fold E in Hm1 |- *.
  replace (Z.max (E - e0) 0) with (E - e0) in * by lia.
  replace (e0 + (E - e0)) with E by lia.
  set (k2 := Z.max (Z.max (Zdigits2 m1 + E - 53) (-1074) - E) 0).
  pose proof (pow2_pos (E - e0) ltac:(lia)) as HpE.
  (* the first rounding already reaches the target *)
  assert (0 < m1 /\ (E = et -> Z.pos mt <= m1)) as [Hm1pos Hm1ge].
  { destruct (Z.eq_dec E et) as [Heq|Hne].
    - rewrite Heq in *.
      assert (Z.pos mt <= Z.pos W / 2 ^ (et - e0)) by (apply Z.div_le_lower_bound; lia).
      lia.
    - assert (E - e0 = dW - 53) as Hk by lia.
      assert (2 ^ 52 <= Z.pos W / 2 ^ (E - e0)).
      { apply Z.div_le_lower_bound; [lia|]. rewrite <- Z.pow_add_r by lia.
        replace (E - e0 + 52) with (dW - 1) by lia. lia. }
      lia. }
  assert (0 <= k2) as Hk2 by lia.
  pose proof (pow2_pos k2 Hk2) as Hpk2.
  assert (0 < m1 / 2 ^ k2 /\ (k2 = 0 -> m1 / 2 ^ k2 = m1)) as [Hm2 Hm2eq].
  { split.
    - destruct (Z.eq_dec k2 0) as [->|Hne]; [simpl; rewrite Z.div_1_r; lia|].
      pose proof (Zdigits2_bounds m1 Hm1pos) as [Hlo _].
      assert (k2 = Zdigits2 m1 - 53) as Hk by lia.
      assert (2 ^ 52 <= m1 / 2 ^ k2); [|lia].
      apply Z.div_le_lower_bound; [lia|]. rewrite <- Z.pow_add_r by lia.
      replace (k2 + 52) with (Zdigits2 m1 - 1) by lia. lia.
    - intros ->. simpl. apply Z.div_1_r. }
  unfold round_result. destruct (m1 / 2 ^ k2) as [|m'|m'] eqn:Hm'; try lia.
  destruct (E + k2 <=? emax - prec); [|by left].
  right. exists m', (E + k2). split; [done|].
  destruct (Z.eq_dec k2 0) as [Hz|Hnz]; [|lia].
  destruct (Z.eq_dec E et) as [Heq|Hne]; [|lia].
  right. split; [lia|]. specialize (Hm2eq Hz). specialize (Hm1ge Heq).
  lia.
Qed.


(** Rounding a number at most as large as a binary64 number does not go
    above it. *)
Lemma binary_round_down s W e0 mt et :
  bounded prec emax mt et = true ->
  e0 <= et ->
  Z.pos W <= Z.pos mt * 2 ^ (et - e0) ->
  let r := binary_round prec emax s W e0 in
  r = S754_zero s
  \/ exists m' e', r = S754_finite s m' e' /\ (e' < et \/ e' = et /\ (m' <= mt)%positive).
Proof.
  intros Hb He HW. destruct (canonical_digits _ _ Hb) as [Hcan Hmax].
  pose proof (digits2_pos_bounds mt) as [Htlo Hthi].
  pose proof (digits2_pos_bounds W) as [HWlo HWhi].
  set (dt := Z.pos (digits2_pos mt)) in *. set (dW := Z.pos (digits2_pos W)) in *.
  pose proof (pow2_pos (et - e0) ltac:(lia)) as Hp0.
  assert (dW <= dt + (et - e0)) as Hd.
  { apply (Zdigits2_le (Z.pos W)); [lia|]. rewrite Z.pow_add_r by lia. nia. }
  unfold binary_round. fold dW. rewrite fexp_unfold.
  set (E := Z.max (dW + e0 - 53) (-1074)).
  assert (E <= et) as HE by lia.
  pose proof (shl_align_spec W e0 E) as Hal.
  destruct (shl_align W e0 E) as [mz ez]. destruct Hal as [-> Hmz].
  destruct (Z_lt_le_dec E e0) as [Hlt|Hge].
  - (* the mantissa is shifted to the left: nothing is rounded *)
    replace (Z.min e0 E) with E in * by lia.
    pose proof (pow2_pos (e0 - E) ltac:(lia)) as HpE.
    assert (Zdigits2 (Z.pos mz) = dW + (e0 - E)) as Hdz.
    { rewrite Hmz. apply (Zdigits2_shift (Z.pos W)); lia. }
    destruct (binary_round_aux_trace s (Z.pos mz) E ltac:(lia)) as (m1 & _ & Hm1 & ->).
    rewrite Hdz, !fexp_unfold in *.
    replace (Z.max (Z.max (dW + (e0 - E) + E - 53) (-1074) - E) 0) with 0 in * by lia.
    simpl (2 ^ 0) in *. rewrite Z.div_1_r in *.
    specialize (Hm1 (Z.mod_1_r _)). subst m1. rewrite Hdz.
    replace (Z.max (Z.max (dW + (e0 - E) + (E + 0) - 53) (-1074) - (E + 0)) 0) with 0 by lia.
    simpl (2 ^ 0). rewrite Z.div_1_r. unfold round_result.
    replace (E + 0 + 0 <=? emax - prec) with true
      by (symmetry; apply Z.leb_le; unfold emax, prec; lia).
    right. exists mz, (E + 0 + 0). split; [done|]. left. lia.
  - replace (Z.min e0 E) with e0 in * by lia.
    replace (e0 - e0) with 0 in Hmz by lia. simpl in Hmz.
    assert (mz = W) as -> by lia. clear Hmz.
    destruct (binary_round_aux_trace s (Z.pos W) e0 ltac:(lia)) as (m1 & Hm1 & Hex & ->).
    simpl Zdigits2 in *. fold dW in Hm1, Hex |- *. rewrite !fexp_unfold in *.
    fold E in Hm1, Hex |- *.
    replace (Z.max (E - e0) 0) with (E - e0) in * by lia.
    replace (e0 + (E - e0)) with E by lia.
    set (k2 := Z.max (Z.max (Zdigits2 m1 + E - 53) (-1074) - E) 0).
    pose proof (pow2_pos (E - e0) ltac:(lia)) as HpE.
    assert (0 <= Z.pos W / 2 ^ (E - e0)) as Hq0 by (apply Z.div_pos; lia).
    assert (m1 <= 2 ^ 53) as Hm1hi.
    { assert (Z.pos W / 2 ^ (E - e0) < 2 ^ 53); [|lia].
      apply Z.div_lt_upper_bound; [lia|]. rewrite <- Z.pow_add_r by lia.
      assert (2 ^ dW <= 2 ^ (E - e0 + 53)) by (apply Z.pow_le_mono_r; lia). lia. }
    assert (E = et -> m1 <= Z.pos mt) as Hm1le.
    { intros Heq. rewrite Heq in *.
      destruct (Z.eq_dec (Z.pos W mod 2 ^ (et - e0)) 0) as [Hz|Hnz].
      - rewrite (Hex Hz). apply Z.div_le_upper_bound; lia.
      - assert (Z.pos W <> Z.pos mt * 2 ^ (et - e0)) as Hne.
        { intros Heq'. apply Hnz. rewrite Heq'. apply Z.mod_mul. lia. }
        assert (Z.pos W / 2 ^ (et - e0) < Z.pos mt); [|lia].
        apply Z.div_lt_upper_bound; lia. }
    assert (0 <= m1) as Hm1pos by lia.
    assert (Zdigits2 m1 <= 54) as Hdm1.
    { apply Zdigits2_le; [lia|]. change (2 ^ 54) with (2 * 2 ^ 53). lia. }
    assert (0 <= k2 <= 1) as Hk2 by lia.
    assert (E = et -> k2 = 0) as Hk2z.
    { intros Heq. specialize (Hm1le Heq).
      assert (Zdigits2 m1 <= dt) by (apply Zdigits2_le; lia). lia. }
    assert (0 <= m1 / 2 ^ k2) as Hm2 by (apply Z.div_pos; [lia|apply pow2_pos; lia]).
    unfold round_result. destruct (m1 / 2 ^ k2) as [|m'|m'] eqn:Hm'; [by left| |lia].
    assert (E + k2 <= et) as He2.
    { destruct (Z.eq_dec E et) as [Heq|Hne]; [rewrite (Hk2z Heq)|]; lia. }
    replace (E + k2 <=? emax - prec) with true
      by (symmetry; apply Z.leb_le; unfold emax, prec; lia).
    right. exists m', (E + k2). split; [done|].
    destruct (Z.eq_dec (E + k2) et) as [Heq|Hne]; [|lia].
    right. split; [done|].
    destruct (Z.eq_dec k2 0) as [Hz|Hnz].
    + rewrite Hz in *. simpl (2 ^ 0) in Hm'. rewrite Z.div_1_r in Hm'.
      assert (E = et) as HEet by lia. specialize (Hm1le HEet). lia.
    + assert (k2 = 1) as Hk1 by lia. rewrite Hk1 in *.
      assert (2 ^ 52 <= Z.pos mt) as Hmt.
      { assert (dt = 53) as Hdt by lia. rewrite Hdt in Htlo. exact Htlo. }
      assert (m1 / 2 ^ 1 <= 2 ^ 52); [|lia].
      apply Z.div_le_upper_bound; [lia|]. change (2 ^ 1 * 2 ^ 52) with (2 ^ 53). lia.
Qed.

End Rounding.

(** ** No NaN from real numbers *)

Section NotNan.
Implicit Types (x y : float) (s : bool).

Lemma shr_nonneg mrs e n : 0 <= shr_m mrs -> 0 <= shr_m (shr mrs e n).1.
Proof.
  intros Hm. destruct n as [|p|p]; simpl; try done.
  apply (iter_pos_shift_inv shr_1 (fun _ r => 0 <= shr_m r)) with (k := 0); [|lia|done].
  intros _ [m r s'] _. simpl. destruct m as [|[q|q|]|q]; simpl; lia.
Qed.

Lemma round_aux_not_nan s mx ex lx :
  0 <= mx -> is_nan (binary_round_aux prec emax s mx ex lx) = false.
Proof.
  intros Hmx. unfold binary_round_aux, shr_fexp.
  set (n := fexp prec emax (Zdigits2 mx + ex) - ex).
  pose proof (shr_nonneg (shr_record_of_loc mx lx) ex n) as H1.
  destruct (shr (shr_record_of_loc mx lx) ex n) as [mrs' e']. simpl in H1.
  assert (0 <= shr_m (shr_record_of_loc mx lx)) as H0 by (by destruct lx as [|[]]).
  specialize (H1 H0). pose proof (round_nearest_even_bounds mrs') as Hb.
  set (m1 := round_nearest_even (shr_m mrs') (loc_of_shr_record mrs')) in *.
  set (n2 := fexp prec emax (Zdigits2 m1 + e') - e').
  pose proof (shr_nonneg (shr_record_of_loc m1 loc_Exact) e' n2) as H2.
  destruct (shr (shr_record_of_loc m1 loc_Exact) e' n2) as [mrs'' e'']. simpl in H2.
  specialize (H2 ltac:(lia)).
  destruct (shr_m mrs'') as [|m|m]; [done| |lia].
  by destruct (e'' <=? emax - prec).
Qed.

Lemma round_not_nan s m e : is_nan (binary_round prec emax s m e) = false.
Proof.
  unfold binary_round. destruct (shl_align m e _) as [mz ez].
  by apply round_aux_not_nan.
Qed.

Lemma normalize_not_nan z e s : is_nan (binary_normalize prec emax z e s) = false.
Proof. destruct z; simpl; [done| |]; apply round_not_nan. Qed.

Lemma of_Z_not_nan z : is_nan (of_Z z) = false.
Proof. apply normalize_not_nan. Qed.

Lemma sub_not_nan x y :
  is_nan x = false -> is_nan y = false -> is_finite x || is_finite y = true ->
  is_nan (x - y)%f64 = false.
Proof.
  f64_unfold.
  destruct x as [[]|[]| |sx mx ex], y as [[]|[]| |sy my ey]; simpl; try congruence.
  intros _ _ _. apply normalize_not_nan.
Qed.

Lemma square_not_nan x : is_nan x = false -> is_nan (x * x)%f64 = false.
Proof.
  f64_unfold. destruct x as [[]|[]| |s m e]; simpl; try congruence.
  intros _. by apply round_aux_not_nan.
Qed.

Lemma fma_square_not_nan x z :
  is_nan x = false -> sign_clear z = true -> is_nan z = false ->
  is_nan (fma x x z) = false.
Proof.
  intros Hx Hs Hz. rewrite fma_square_abs.
  destruct x as [s|s| |s m e]; simpl SFabs; try done.
  - by destruct z as [[]|[]| |[] mz ez].
  - by destruct z as [[]|[]| |[] mz ez].
  - destruct z as [[]|[]| |[] mz ez]; try done.
    + apply (square_not_nan (S754_finite false m e)). done.
    + unfold fma. simpl. apply round_not_nan.
Qed.

Lemma add_not_nan x y :
  sign_clear x = true -> sign_clear y = true ->
  is_nan x = false -> is_nan y = false -> is_nan (x + y)%f64 = false.
Proof.
  f64_unfold.
  destruct x as [[]|[]| |[] mx ex], y as [[]|[]| |[] my ey]; simpl; try congruence.
  intros _ _ _ _. apply round_not_nan.
Qed.

Lemma sqrt_not_nan x :
  sign_clear x = true -> is_nan x = false -> is_nan (sqrt x) = false.
Proof.
  f64_unfold. destruct x as [[]|[]| |[] m e]; simpl; try congruence.
  intros _ _. unfold SFsqrt_core_binary.
  match goal with |- context [Z.sqrtrem ?a] =>
    pose proof (Z.sqrtrem_sqrt a) as Hs;
    destruct (Z.sqrtrem a) as [q r] end.
  simpl in Hs. apply round_aux_not_nan. rewrite Hs. apply Z.sqrt_nonneg.
Qed.

Lemma div_c_not_nan x :
  sign_clear x = true -> is_nan x = false -> is_nan (x / c)%f64 = false.
Proof.
  unfold c. f64_unfold. destruct x as [[]|[]| |[] m e]; simpl; try congruence.
  intros _ _. unfold SFdiv_core_binary.
  match goal with |- context [Z.div_eucl ?a ?b] =>
    assert (0 <= a / b) as Hq;
    [|unfold Z.div in Hq; destruct (Z.div_eucl a b) as [q r]] end.
  - apply Z.div_pos; [|lia].
    match goal with |- 0 <= match ?d with _ => _ end => destruct d end;
      try lia. apply Z.shiftl_nonneg. lia.
  - by apply round_aux_not_nan.
Qed.

End NotNan.

(** ** Order *)

Section Order.
Implicit Types (x y tot : float) (s : bool).

Lemma leb_zero_nonneg x :
  sign_clear x = true -> is_nan x = false -> (zero <=? x)%f64 = true.
Proof. destruct x as [[]|[]| |[] m e]; cbv; congruence. Qed.

Lemma add_finite_ge st mt et mx ex :
  bounded prec emax mt et = true ->
  (S754_finite st mt et <=? S754_finite st mt et + S754_finite false mx ex)%f64 = true.
Proof.
  intros Hb. f64_unfold. unfold SFadd.
  set (ez := Z.min et ex).
  pose proof (shl_align_spec mt et ez) as Ht. destruct (shl_align mt et ez) as [Mt e1].
  pose proof (shl_align_spec mx ex ez) as Hx. destruct (shl_align mx ex ez) as [Mx e2].
  destruct Ht as [-> Ht], Hx as [-> Hx]. simpl fst.
  replace (Z.min et ez) with ez in Ht by lia.
  replace (Z.min ex ez) with ez in Hx by lia.
  assert (ez <= et) as Hez by lia.
  destruct st; simpl cond_Zopp.
  - (* a negative time of transmission *)
    destruct (- Z.pos Mt + Z.pos Mx) as [|W|W] eqn:Hz; simpl binary_normalize.
    + reflexivity.
    + pose proof (round_not_nan false W ez) as Hnan.
      destruct (binary_round_cases false W ez) as [H|[H|[H|(m' & e' & H)]]];
        rewrite H in *; done.
    + destruct (binary_round_down true W ez mt et Hb Hez ltac:(lia))
        as [H|(m' & e' & H & Hle)]; rewrite H; [done|].
      unfold SFleb, SFcompare. destruct Hle as [Hlt|[-> Hle]].
      * apply Z.compare_gt_iff in Hlt. by rewrite Hlt.
      * rewrite Z.compare_refl. change (Pos.compare_cont Eq mt m') with (mt ?= m')%positive.
        destruct (mt ?= m')%positive eqn:Hc; try done.
        apply Pos.compare_lt_iff, Pos.lt_nle in Hc. by destruct Hc.
  - assert (Z.pos Mt + Z.pos Mx = Z.pos (Mt + Mx)) as -> by lia. simpl binary_normalize.
    destruct (binary_round_up false (Mt + Mx) ez mt et Hb Hez ltac:(lia))
      as [H|(m' & e' & H & Hge)]; rewrite H; [done|].
    unfold SFleb, SFcompare. destruct Hge as [Hlt|[-> Hge]].
    * apply Z.compare_lt_iff in Hlt. by rewrite Hlt.
    * rewrite Z.compare_refl. change (Pos.compare_cont Eq mt m') with (mt ?= m')%positive.
      by destruct (mt ?= m')%positive eqn:Hc.
Qed.

Lemma leb_refl_finite s m e : (S754_finite s m e <=? S754_finite s m e)%f64 = true.
Proof.
  unfold leb, SFleb, SFcompare. rewrite Z.compare_refl.
  change (Pos.compare_cont Eq m m) with (m ?= m)%positive. rewrite Pos.compare_refl.
  by destruct s.
Qed.

Lemma eqb_refl x : is_nan x = false -> (x =? x)%f64 = true.
Proof.
  destruct x as [[]|[]| |s m e]; try done. intros _.
  unfold eqb, SFeqb, SFcompare. rewrite Z.compare_refl.
  change (Pos.compare_cont Eq m m) with (m ?= m)%positive. rewrite Pos.compare_refl.
  by destruct s.
Qed.

(** Adding a number that is not negative does not give less. *)
Lemma add_nonneg_ge tot x :
  is_finite tot = true -> is_binary64 tot = true ->
  sign_clear x = true -> is_nan x = false ->
  (tot <=? tot + x)%f64 = true.
Proof.
  intros Hfin Hb Hs Hn.
  destruct tot as [st| | |st mt et]; try done.
  - destruct st, x as [[]|[]| |[] mx ex]; done.
  - destruct x as [[]|[]| |[] mx ex]; try done.
    + apply leb_refl_finite.
    + by apply add_finite_ge.
Qed.

End Order.

(** ** [calc_range] and [calc_toa] *)

Section Range.
Implicit Types (x y : float) (a b : ndarray) (u v : vec3 float).

Lemma linalg_norm_norm3 a : linalg_norm a = norm3 (astype_float a).
Proof.
  unfold linalg_norm, norm3, dot, ravel. cbn [fold_left combine fst snd].
  by rewrite fma_square_zero.
Qed.

Lemma sign_clear_norm3 d : sign_clear (norm3 d) = true.
Proof.
  unfold norm3. apply sign_clear_sqrt.
  repeat apply sign_clear_fma_square. apply sign_clear_square.
Qed.

Lemma sign_clear_calc_range a b : sign_clear (calc_range a b) = true.
Proof. unfold calc_range. rewrite linalg_norm_norm3. apply sign_clear_norm3. Qed.

Lemma norm3_abs d : norm3 d = norm3 (vmap SFabs d).
Proof.
  unfold norm3. cbn [vmap vx vy vz]. by rewrite <- !fma_square_abs, <- mul_abs.
Qed.

(** Swapping the operands of a subtraction changes the sign of the result
    at most. *)
Lemma abs_sub_swap x y : SFabs (x - y)%f64 = SFabs (y - x)%f64.
Proof.
  f64_unfold.
  destruct x as [[]|[]| |sx mx ex], y as [[]|[]| |sy my ey]; try reflexivity.
  unfold SFsub. rewrite (Z.min_comm ey ex).
  set (p := cond_Zopp sx _). set (q := cond_Zopp sy _).
  replace (q - p) with (- (p - q)) by lia. symmetry. apply abs_normalize_opp.
Qed.

Lemma wrap64_range z : - 2 ^ 63 <= wrap64 z < 2 ^ 63.
Proof. unfold wrap64. pose proof (Z.mod_pos_bound (z + 2 ^ 63) (2 ^ 64)). lia. Qed.

Lemma wrap64_id z : - 2 ^ 63 <= z < 2 ^ 63 -> wrap64 z = z.
Proof. intros Hz. unfold wrap64. rewrite Z.mod_small; lia. Qed.

Lemma wrap64_swap p q :
  wrap64 (q - p) = - wrap64 (p - q) \/ wrap64 (q - p) = wrap64 (p - q).
Proof.
  unfold wrap64.
  pose proof (Z.div_mod (p - q + 2 ^ 63) (2 ^ 64)).
  pose proof (Z.mod_pos_bound (p - q + 2 ^ 63) (2 ^ 64)).
  pose proof (Z.div_mod (q - p + 2 ^ 63) (2 ^ 64)).
  pose proof (Z.mod_pos_bound (q - p + 2 ^ 63) (2 ^ 64)).
  lia.
Qed.

Lemma abs_of_Z_opp z : SFabs (of_Z (- z)) = SFabs (of_Z z).
Proof. apply abs_normalize_opp. Qed.

Lemma abs_subtract_swap a b :
  vmap SFabs (astype_float (subtract a b)) = vmap SFabs (astype_float (subtract b a)).
Proof.
  destruct a as [[a1 a2 a3]|[a1 a2 a3]], b as [[b1 b2 b3]|[b1 b2 b3]];
    unfold vmap; simpl; f_equal; try apply abs_sub_swap.
  all: match goal with |- SFabs (of_Z (wrap64 (?p - ?q))) = _ =>
         destruct (wrap64_swap p q) as [-> | ->];
         [symmetry; apply abs_of_Z_opp | reflexivity] end.
Qed.

Lemma sub_diag x : is_finite x = true -> (x - x)%f64 = zero.
Proof.
  f64_unfold. destruct x as [[]|[]| |s m e]; simpl; try congruence.
  intros _. by rewrite Z.sub_diag.
Qed.

Lemma norm3_zero : norm3 (Vec3 zero zero zero) = zero.
Proof. reflexivity. Qed.

Lemma calc_range_swap a b : calc_range a b = calc_range b a.
Proof.
  unfold calc_range. rewrite !linalg_norm_norm3.
  rewrite (norm3_abs (astype_float (subtract a b))), abs_subtract_swap.
  symmetry. apply norm3_abs.
Qed.

Lemma norm3_not_nan d :
  is_nan (vx d) = false -> is_nan (vy d) = false -> is_nan (vz d) = false ->
  is_nan (norm3 d) = false.
Proof.
  intros Hx Hy Hz. unfold norm3.
  apply sqrt_not_nan;
    [repeat apply sign_clear_fma_square; apply sign_clear_square|].
  repeat apply fma_square_not_nan;
    try apply sign_clear_fma_square; try apply sign_clear_square;
    try done; by apply square_not_nan.
Qed.

Lemma finite_not_nan x : is_finite x = true -> is_nan x = false.
Proof. by destruct x. Qed.

Lemma calc_range_not_nan a b :
  all_finite a = true -> all_finite b = true -> is_nan (calc_range a b) = false.
Proof.
  intros Ha Hb. unfold calc_range. rewrite linalg_norm_norm3.
  destruct a as [[a1 a2 a3]|[a1 a2 a3]], b as [[b1 b2 b3]|[b1 b2 b3]];
    unfold subtract, astype_float, vzip, vmap, all_finite in *; cbn [vx vy vz] in *;
    repeat match goal with
           | H : _ && _ = true |- _ => apply andb_true_iff in H as [? ?]
           end.
  all: apply norm3_not_nan; cbn [vx vy vz]; try apply of_Z_not_nan.
  all: apply sub_not_nan;
    repeat match goal with
           | |- is_nan (of_Z _) = false => apply of_Z_not_nan
           | |- is_nan _ = false => by apply finite_not_nan
           | H : is_finite ?x = true |- _ || is_finite ?x = true =>
               rewrite H; apply orb_true_r
           | H : is_finite ?x = true |- is_finite ?x || _ = true =>
               by rewrite H
           end.
Qed.

End Range.

(** ** The claims about [exp00_tdoa.py] *)

Lemma c_value : to_Q c = Some 299000000%Q.
Proof. vm_compute. reflexivity. Qed.

Lemma main_toa1 : toa1 main_frame = S754_finite false 4654021675226641 (-74).
Proof. vm_compute. reflexivity. Qed.

Lemma main_toa2 : toa2 main_frame = S754_finite false 7847502339457331 (-74).
Proof. vm_compute. reflexivity. Qed.

Lemma main_tdoa : tdoa main_frame = S754_finite false 6386961328461380 (-75).
Proof. vm_compute. reflexivity. Qed.

(** C1: [calc_toa tot transmitter receiver] is [tot + calc_range transmitter
    receiver / c] in binary64 arithmetic, and [c] is 299,000,000. *)
Theorem calc_toa_spec (tot : float) (transmit_pos receive_pos : ndarray) :
  calc_toa tot transmit_pos receive_pos
    = (tot + calc_range transmit_pos receive_pos / c)%f64
  /\ to_Q c = Some 299000000%Q.
Proof. split; [reflexivity | apply c_value]. Qed.

(** C3, as the claim has it, fails: the [tdoa] that [main] computes is not
    within 1e-8 of 1.5906e-7, let alone equal to it in the digits given. *)
Lemma main_tdoa_not_15906 :
  is_finite (tdoa main_frame) = true
  /\ within (tdoa main_frame) 1.5906e-7 1e-8 = false.
Proof. vm_compute. split; reflexivity. Qed.

(** C3, amended: the [tdoa] that [main] computes is 1.6906e-7 to the five
    digits given (within half a unit of the last digit). *)
Theorem main_tdoa_16906 : within (tdoa main_frame) 1.6906e-7 5e-12 = true.
Proof. vm_compute. reflexivity. Qed.

(** C6: [main] returns 0 and writes nothing; the [tdoa] it has computed,
    [toa2 - toa1], stays a local variable. *)
Theorem main_returns_zero :
  returned main = 0 /\ stdout main = []
  /\ tdoa main_frame = (toa2 main_frame - toa1 main_frame)%f64.
Proof. repeat split. Qed.

(** C5, as the claim has it, fails: with the transmitter and the first
    receiver of [main], sending at [1.0 + 1.0] does not arrive at the
    arrival time for [1.0] plus [1.0]; the two differ in the last bit. *)
Lemma calc_toa_shift_fails :
  let transmit_pos := array_int 1 1 0 in
  let receive_pos := array_int 50 50 25 in
  let tot := of_Z 1 in
  let delta := of_Z 1 in
  calc_toa (tot + delta)%f64 transmit_pos receive_pos
    = S754_finite false 4503600182173113 (-51)
  /\ (calc_toa tot transmit_pos receive_pos + delta)%f64
    = S754_finite false 4503600182173114 (-51)
  /\ (calc_toa (tot + delta)%f64 transmit_pos receive_pos
      =? calc_toa tot transmit_pos receive_pos + delta)%f64 = false.
Proof. vm_compute. auto. Qed.

(** C5, amended: [calc_toa (tot + delta) t r] is [(tot + delta) + calc_range
    t r / c] in binary64 arithmetic, and for [tot = 0], the time of
    transmission of [main], it is exactly [calc_toa 0 t r + delta]. *)
Theorem calc_toa_shift_from_zero (delta : float) (transmit_pos receive_pos : ndarray) :
  (forall tot, calc_toa (tot + delta)%f64 transmit_pos receive_pos
               = ((tot + delta) + calc_range transmit_pos receive_pos / c)%f64)
  /\ calc_toa (zero + delta)%f64 transmit_pos receive_pos
     = (calc_toa zero transmit_pos receive_pos + delta)%f64.
Proof.
  split; [reflexivity|]. unfold calc_toa.
  pose proof (sign_clear_div_c _ (sign_clear_calc_range transmit_pos receive_pos)) as Hx.
  set (x := (calc_range transmit_pos receive_pos / c)%f64) in *.
  rewrite (add_zero_l x Hx), (add_comm x delta).
  destruct (sign_clear delta) eqn:Hd; [by rewrite add_zero_l|].
  clearbody x. f64_unfold.
  destruct delta as [[]|[]| |[] m e]; simpl in Hd; try congruence;
    destruct x as [[]|[]| |[] mx ex]; simpl in Hx; try congruence; reflexivity.
Qed.

(** C8: [calc_range] is symmetric: the two calls return the same binary64
    value. *)
Theorem calc_range_sym (a b : ndarray) : calc_range a b = calc_range b a.
Proof. apply calc_range_swap. Qed.

(** On real numbers the value is not NaN, and Python's [==] holds as well. *)
Lemma calc_range_sym_eqb (a b : ndarray) :
  all_finite a = true -> all_finite b = true ->
  (calc_range a b =? calc_range b a)%f64 = true.
Proof.
  intros Ha Hb. rewrite (calc_range_swap b a). by apply eqb_refl, calc_range_not_nan.
Qed.

(** C9: the range from a position to itself is [0.0], for every position
    whose coordinates are real numbers. *)
Theorem calc_range_self (p : ndarray) :
  all_finite p = true -> calc_range p p = zero /\ (calc_range p p =? zero)%f64 = true.
Proof.
  intros Hp. assert (calc_range p p = zero) as ->; [|done].
  unfold calc_range. rewrite linalg_norm_norm3.
  destruct p as [[p1 p2 p3]|[p1 p2 p3]];
    unfold subtract, astype_float, vzip, vmap, all_finite in *; cbn [vx vy vz] in *.
  - rewrite !Z.sub_diag. reflexivity.
  - apply andb_true_iff in Hp as [Hp H3]. apply andb_true_iff in Hp as [H1 H2].
    rewrite !sub_diag by done. reflexivity.
Qed.

Lemma calc_range_self_example :
  let p := array_float (of_Z 7) (of_Z (-3) / of_Z 2)%f64 zero in
  all_finite p = true
  /\ calc_range p p = zero /\ (calc_range p p =? zero)%f64 = true.
Proof.
  intros p. split; [reflexivity|]. apply (calc_range_self p). reflexivity.
Defined.

(** Outside the real numbers the range to oneself is not a number:
    [inf - inf] is NaN. *)
Lemma calc_range_self_inf :
  calc_range (array_float (S754_infinity false) zero zero)
             (array_float (S754_infinity false) zero zero) = S754_nan.
Proof. reflexivity. Qed.

(** C10: for positions and a time of transmission that are real numbers,
    [calc_range a b] is not negative, and [calc_toa tot a b] is not before
    [tot]. *)
Theorem calc_toa_not_before (tot : float) (a b : ndarray) :
  all_finite a = true -> all_finite b = true ->
  is_finite tot = true -> is_binary64 tot = true ->
  (zero <=? calc_range a b)%f64 = true
  /\ (tot <=? calc_toa tot a b)%f64 = true.
Proof.
  intros Ha Hb Hfin Hvalid.
  pose proof (sign_clear_calc_range a b) as Hs.
  pose proof (calc_range_not_nan a b Ha Hb) as Hn.
  split; [by apply leb_zero_nonneg|].
  unfold calc_toa. apply add_nonneg_ge; try done.
  - by apply sign_clear_div_c.
  - by apply div_c_not_nan.
Qed.

Lemma calc_toa_not_before_example :
  let tot := (of_Z (-5) / of_Z 4)%f64 in
  let a := array_float (of_Z 7) (of_Z (-3) / of_Z 2)%f64 zero in
  let b := array_int 3 100 75 in
  (all_finite a = true /\ all_finite b = true
   /\ is_finite tot = true /\ is_binary64 tot = true)
  /\ (zero <=? calc_range a b)%f64 = true
  /\ (tot <=? calc_toa tot a b)%f64 = true.
Proof.
  intros tot a b. split; [repeat split; reflexivity|].
  apply (calc_toa_not_before tot a b); reflexivity.
Defined.

(** ** The emitter classes *)

Section Heap.
Implicit Types (h : heap) (l self : loc) (o : object) (v : pyval).

Lemma new_fresh cls h : h !! (new cls h).1 = None.
Proof. apply not_elem_of_dom, is_fresh. Qed.

Lemma setattr_lookup_ne self name v h l :
  l ≠ self -> setattr self name v h !! l = h !! l.
Proof. intros Hne. unfold setattr. by rewrite lookup_alter_ne. Qed.

Lemma getattr_setattr_eq self name v h :
  is_Some (h !! self) -> getattr (setattr self name v h) self name = Some v.
Proof.
  intros [o Ho]. unfold getattr, setattr.
  rewrite lookup_alter_eq, Ho. simpl. apply lookup_insert_eq.
Qed.

Lemma getattr_setattr_ne self name name' v h :
  name ≠ name' ->
  getattr (setattr self name v h) self name' = getattr h self name'.
Proof.
  intros Hne. unfold getattr, setattr. rewrite lookup_alter_eq.
  destruct (h !! self) as [o|]; simpl; [|done]. by rewrite lookup_insert_ne.
Qed.

Lemma setattr_is_Some self name v h l :
  is_Some (h !! l) -> is_Some (setattr self name v h !! l).
Proof.
  intros [o Ho]. unfold setattr. destruct (decide (self = l)) as [->|Hne].
  - rewrite lookup_alter_eq, Ho. by eexists.
  - rewrite lookup_alter_ne, Ho by done. by eexists.
Qed.

(** A constructor call leaves every object already in the heap as it is. *)
Lemma emitter_frame h l o : h !! l = Some o -> (emitter h).2 !! l = Some o.
Proof.
  intros Ho. unfold emitter, emitter_init. simpl.
  assert (l ≠ fresh (dom h)) as Hne.
  { intros ->. pose proof (new_fresh cls_emitter h) as Hf. simpl in Hf. congruence. }
  rewrite !setattr_lookup_ne by done. by rewrite lookup_insert_ne.
Qed.

Lemma stat_emitter_frame pos h l o :
  h !! l = Some o -> (stat_emitter pos h).2 !! l = Some o.
Proof.
  intros Ho. unfold stat_emitter, stat_emitter_init. simpl.
  assert (l ≠ fresh (dom h)) as Hne.
  { intros ->. pose proof (new_fresh cls_stat_emitter h) as Hf. simpl in Hf. congruence. }
  rewrite !setattr_lookup_ne by done. by rewrite lookup_insert_ne.
Qed.

Lemma step_frame h h' l o : step h h' -> h !! l = Some o -> h' !! l = Some o.
Proof. intros [h0|pos h0] Ho; [by apply emitter_frame | by apply stat_emitter_frame]. Qed.

Lemma steps_frame h h' l o : rtc step h h' -> h !! l = Some o -> h' !! l = Some o.
Proof. induction 1 as [|h1 h2 h3 Hstep _ IH]; [done|]. intros Ho. eapply IH, step_frame; eauto. Qed.

Lemma steps_getattr h h' l name v :
  rtc step h h' -> getattr h l name = Some v -> getattr h' l name = Some v.
Proof.
  intros Hsteps. unfold getattr. destruct (h !! l) as [o|] eqn:Ho; [|done].
  by rewrite (steps_frame _ _ _ _ Hsteps Ho).
Qed.

End Heap.

(** C7: the call [emitter()] succeeds in every heap: it returns a new object of
    class [emitter] whose [pos] is the integer 0 and whose [vel] is the
    integer 0. *)
Theorem emitter_zero (h : heap) :
  let '(self, h') := emitter h in
  h !! self = None
  /\ ob_class <$> h' !! self = Some cls_emitter
  /\ getattr h' self "pos" = Some (PyInt 0)
  /\ getattr h' self "vel" = Some (PyInt 0).
Proof.
  unfold emitter, emitter_init. simpl. set (l := fresh (dom h)).
  assert (is_Some (<[l:=Object cls_emitter ∅]> h !! l)) as Hl
    by (rewrite lookup_insert_eq; by eexists).
  split; [apply (new_fresh cls_emitter h)|]. split; [|split].
  - unfold setattr. rewrite !lookup_alter_eq, lookup_insert_eq. done.
  - rewrite getattr_setattr_ne by done. by apply getattr_setattr_eq.
  - by apply getattr_setattr_eq, setattr_is_Some.
Qed.

(** C4: for every position [pos], the call [stat_emitter(pos)] returns a new
    object whose [vel] is the integer 0, and [vel] is still 0 after any
    number of further operations of the repository on the heap. *)
Theorem stat_emitter_vel_zero (pos : pyval) (h : heap) :
  let '(self, h') := stat_emitter pos h in
  getattr h' self "vel" = Some (PyInt 0)
  /\ forall h'', rtc step h' h'' -> getattr h'' self "vel" = Some (PyInt 0).
Proof.
  unfold stat_emitter, stat_emitter_init. simpl. set (l := fresh (dom h)).
  assert (is_Some (<[l:=Object cls_stat_emitter ∅]> h !! l)) as Hl
    by (rewrite lookup_insert_eq; by eexists).
  assert (getattr (setattr l "vel" (PyInt 0)
            (setattr l "pos" pos (<[l:=Object cls_stat_emitter ∅]> h))) l "vel"
          = Some (PyInt 0)) as Hvel
    by (by apply getattr_setattr_eq, setattr_is_Some).
  split; [done|]. intros h'' Hsteps. by eapply steps_getattr.
Qed.

(** * Further properties *)

(** ** Numbers that need no rounding *)

Section Exact.
Implicit Types (x y : float) (s : bool).

(** A number that is a binary64 number is rounded to itself. *)
Lemma binary_round_exact_le s W e0 mt et :
  bounded prec emax mt et = true ->
  e0 <= et ->
  Z.pos W = Z.pos mt * 2 ^ (et - e0) ->
  binary_round prec emax s W e0 = S754_finite s mt et.
Proof.
  intros Hb He HW.
  destruct (binary_round_up s W e0 mt et Hb He ltac:(lia)) as [Hu|(m1 & e1 & Hu & Hge)];
    destruct (binary_round_down s W e0 mt et Hb He ltac:(lia)) as [Hd|(m2 & e2 & Hd & Hle)];
    rewrite Hu in Hd; try discriminate.
  injection Hd as <- <-. rewrite Hu.
  assert (e1 = et) as -> by lia. f_equal. lia.
Qed.

Lemma binary_round_exact_gt s W e0 mt et :
  bounded prec emax mt et = true ->
  et < e0 ->
  Z.pos W * 2 ^ (e0 - et) = Z.pos mt ->
  binary_round prec emax s W e0 = S754_finite s mt et.
Proof.
  intros Hb He HW. destruct (canonical_digits _ _ Hb) as [Hcan Hmax].
  assert (Z.pos (digits2_pos mt) = Z.pos (digits2_pos W) + (e0 - et)) as Hd.
  { change (Zdigits2 (Z.pos mt) = Zdigits2 (Z.pos W) + (e0 - et)).
    rewrite <- HW. apply Zdigits2_shift; lia. }
  unfold binary_round. rewrite fexp_unfold.
  replace (Z.max (Z.pos (digits2_pos W) + e0 - 53) (-1074)) with et by lia.
  pose proof (shl_align_spec W e0 et) as Hal.
  destruct (shl_align W e0 et) as [mz ez]. destruct Hal as [-> Hmz].
  replace (Z.min e0 et) with et in * by lia.
  assert (mz = mt) as -> by lia.
  destruct (binary_round_aux_trace s (Z.pos mt) et ltac:(lia)) as (m1 & _ & Hm1 & ->).
  simpl Zdigits2 in *. rewrite !fexp_unfold in *.
  replace (Z.max (Z.max (Z.pos (digits2_pos mt) + et - 53) (-1074) - et) 0) with 0 in * by lia.
  simpl (2 ^ 0) in *. rewrite Z.div_1_r in *.
  specialize (Hm1 (Z.mod_1_r _)). subst m1. simpl Zdigits2.
  replace (Z.max (Z.max (Z.pos (digits2_pos mt) + (et + 0) - 53) (-1074) - (et + 0)) 0)
    with 0 by lia.
  simpl (2 ^ 0). rewrite Z.div_1_r. unfold round_result.
  replace (et + 0 + 0) with et by lia.
  replace (et <=? emax - prec) with true
    by (symmetry; apply Z.leb_le; unfold emax, prec; lia).
  reflexivity.
Qed.

Lemma binary_round_opp s m e :
  binary_round prec emax (negb s) m e = SFopp (binary_round prec emax s m e).
Proof.
  unfold binary_round. destruct (shl_align m e _) as [mz ez].
  unfold binary_round_aux.
  destruct (shr_fexp prec emax (Z.pos mz) ez loc_Exact) as [mrs' e'].
  destruct (shr_fexp prec emax _ e' loc_Exact) as [mrs'' e''].
  destruct (shr_m mrs'') as [|p|p]; [reflexivity | | reflexivity].
  destruct (e'' <=? emax - prec); reflexivity.
Qed.

(** The binary64 number of a small positive integer. *)
Lemma small_int_repr z :
  0 < z < 2 ^ 53 ->
  exists mt et,
    bounded prec emax mt et = true /\ - 53 < et <= 0 /\ Z.pos mt = z * 2 ^ (- et).
Proof.
  intros Hz. pose proof (Zdigits2_bounds z ltac:(lia)) as [Hlo Hhi].
  assert (1 <= Zdigits2 z) as Hd1 by (destruct z; simpl; lia).
  assert (Zdigits2 z <= 53) as Hd2 by (apply Zdigits2_le; lia).
  set (d := Zdigits2 z) in *.
  pose proof (pow2_pos (53 - d) ltac:(lia)) as Hp.
  assert (0 < z * 2 ^ (53 - d)) as Hpos by nia.
  destruct (z * 2 ^ (53 - d)) as [|mt|mt] eqn:Hmt; try lia.
  exists mt, (d - 53). split; [|split; [lia|]].
  - unfold bounded, canonical_mantissa. apply andb_true_iff. split.
    + apply Z.eqb_eq. rewrite fexp_unfold.
      change (Z.pos (digits2_pos mt)) with (Zdigits2 (Z.pos mt)).
      rewrite <- Hmt, Zdigits2_shift by lia. fold d. lia.
    + apply Z.leb_le. unfold emax, prec. lia.
  - replace (- (d - 53)) with (53 - d) by lia. lia.
Qed.

(** An integer given with a finer unit is rounded like the integer. *)
Lemma binary_round_small_int s W e0 z mt et :
  bounded prec emax mt et = true -> et <= 0 -> Z.pos mt = z * 2 ^ (- et) ->
  e0 <= 0 -> Z.pos W = z * 2 ^ (- e0) ->
  binary_round prec emax s W e0 = S754_finite s mt et.
Proof.
  intros Hb Het Hmt He0 HW.
  destruct (Z_le_gt_dec e0 et) as [Hle|Hgt].
  - apply binary_round_exact_le; [done|done|].
    rewrite HW, Hmt, <- Z.mul_assoc, <- Z.pow_add_r by lia. do 2 f_equal. lia.
  - apply binary_round_exact_gt; [done|lia|].
    rewrite HW, Hmt, <- Z.mul_assoc, <- Z.pow_add_r by lia. do 2 f_equal. lia.
Qed.

(** Shape of [of_Z] on small integers. *)
Lemma of_Z_small z :
  0 < Z.abs z < 2 ^ 53 ->
  exists mt et,
    of_Z z = S754_finite (z <? 0) mt et
    /\ bounded prec emax mt et = true /\ - 53 < et <= 0
    /\ Z.pos mt = Z.abs z * 2 ^ (- et).
Proof.
  intros Hz. destruct (small_int_repr (Z.abs z) Hz) as (mt & et & Hb & Het & Hmt).
  exists mt, et. split; [|done].
  unfold of_Z. destruct z as [|p|p]; simpl in *; try lia.
  - apply (binary_round_small_int false p 0 (Z.pos p) mt et); try done; try lia.
  - apply (binary_round_small_int true p 0 (Z.pos p) mt et); try done; try lia.
Qed.

(** Normalising an integer given with a finer unit gives the float of the
    integer. *)
Lemma normalize_small_int n e0 :
  Z.abs n < 2 ^ 53 -> e0 <= 0 ->
  binary_normalize prec emax (n * 2 ^ (- e0)) e0 false = of_Z n.
Proof.
  intros Hn He0. pose proof (pow2_pos (- e0) ltac:(lia)) as Hp.
  destruct (Z.eq_dec n 0) as [->|Hne]; [reflexivity|].
  destruct (small_int_repr (Z.abs n) ltac:(lia)) as (mt & et & Hb & Het & Hmt).
  unfold of_Z.
  destruct n as [|p|p]; try lia; simpl Z.abs in *.
  - assert (0 < Z.pos p * 2 ^ (- e0)) as Hpos by nia.
    destruct (Z.pos p * 2 ^ (- e0)) as [|W|W] eqn:HW; try lia. simpl.
    rewrite (binary_round_small_int false W e0 (Z.pos p) mt et) by (try done; lia).
    rewrite (binary_round_small_int false p 0 (Z.pos p) mt et) by (try done; lia).
    reflexivity.
  - assert (Z.neg p * 2 ^ (- e0) < 0) as Hneg by nia.
    destruct (Z.neg p * 2 ^ (- e0)) as [|W|W] eqn:HW; try lia. simpl.
    assert (Z.pos W = Z.pos p * 2 ^ (- e0)) as HW' by lia.
    rewrite (binary_round_small_int true W e0 (Z.pos p) mt et) by (try done; lia).
    rewrite (binary_round_small_int true p 0 (Z.pos p) mt et) by (try done; lia).
    reflexivity.
Qed.

End Exact.

Section ExactOps.
Implicit Types (x y : float) (s : bool).

Lemma of_Z_opp z : z <> 0 -> of_Z (- z) = SFopp (of_Z z).
Proof.
  intros Hz. unfold of_Z. destruct z as [|p|p]; [done| |]; simpl.
  - apply (binary_round_opp false).
  - apply (binary_round_opp true).
Qed.

Lemma cond_Zopp_abs z : cond_Zopp (z <? 0) (Z.abs z) = z.
Proof. destruct z; reflexivity. Qed.

(** The mantissa of a small integer, aligned to a finer unit. *)
Lemma shl_align_small z mt et ez :
  Z.pos mt = Z.abs z * 2 ^ (- et) -> et <= 0 -> ez <= et ->
  cond_Zopp (z <? 0) (Z.pos (shl_align mt et ez).1) = z * 2 ^ (- ez).
Proof.
  intros Hmt Het Hez. pose proof (shl_align_spec mt et ez) as Hal.
  destruct (shl_align mt et ez) as [m' e']. destruct Hal as [-> Hm']. simpl fst.
  replace (Z.min et ez) with ez in Hm' by lia.
  rewrite Hm', Hmt, <- Z.mul_assoc, <- Z.pow_add_r by lia.
  replace (- et + (et - ez)) with (- ez) by lia.
  destruct z; simpl; lia.
Qed.

Lemma sub_of_Z a b :
  Z.abs a < 2 ^ 53 -> Z.abs b < 2 ^ 53 -> Z.abs (a - b) < 2 ^ 53 ->
  (of_Z a - of_Z b)%f64 = of_Z (a - b).
Proof.
  intros Ha Hb Hab.
  destruct (Z.eq_dec b 0) as [->|Hb0].
  { rewrite Z.sub_0_r. change (of_Z 0) with zero. unfold sub, zero.
    by destruct (of_Z a) as [[]|[]| |]. }
  destruct (of_Z_small b ltac:(lia)) as (mb & eb & Hofb & _ & Heb & Hmb).
  destruct (Z.eq_dec a 0) as [->|Ha0].
  { rewrite Z.sub_0_l, of_Z_opp, Hofb by done. reflexivity. }
  destruct (of_Z_small a ltac:(lia)) as (ma & ea & Hofa & _ & Hea & Hma).
  rewrite Hofa, Hofb. unfold sub, SFsub.
  rewrite (shl_align_small a ma ea) by (try done; lia).
  rewrite (shl_align_small b mb eb) by (try done; lia).
  rewrite <- Z.mul_sub_distr_r. apply normalize_small_int; lia.
Qed.

Lemma add_of_Z a b :
  0 <= a -> 0 <= b -> a + b < 2 ^ 53 -> (of_Z a + of_Z b)%f64 = of_Z (a + b).
Proof.
  intros Ha Hb Hab.
  destruct (Z.eq_dec b 0) as [->|Hb0].
  { rewrite Z.add_0_r. change (of_Z 0) with zero. rewrite add_comm.
    apply add_zero_l. destruct a; [done|apply sign_clear_round|lia]. }
  destruct (of_Z_small b ltac:(lia)) as (mb & eb & Hofb & _ & Heb & Hmb).
  destruct (Z.eq_dec a 0) as [->|Ha0].
  { rewrite Z.add_0_l, Hofb. reflexivity. }
  destruct (of_Z_small a ltac:(lia)) as (ma & ea & Hofa & _ & Hea & Hma).
  rewrite Hofa, Hofb. unfold add, SFadd.
  rewrite (shl_align_small a ma ea) by (try done; lia).
  rewrite (shl_align_small b mb eb) by (try done; lia).
  rewrite <- Z.mul_add_distr_r. apply normalize_small_int; lia.
Qed.

Lemma square_of_Z d : d * d < 2 ^ 53 -> (of_Z d * of_Z d)%f64 = of_Z (d * d).
Proof.
  intros Hd. destruct (Z.eq_dec d 0) as [->|Hd0]; [reflexivity|].
  assert (Z.abs d < 2 ^ 53) as Habs by nia.
  destruct (of_Z_small d ltac:(lia)) as (m & e & Hof & Hb & He & Hm).
  destruct (canonical_digits _ _ Hb) as [Hcan _].
  assert (Z.pos (digits2_pos m) = 53) as Hdm by lia.
  pose proof (digits2_pos_bounds m) as [Hlo _]. rewrite Hdm in Hlo.
  rewrite Hof. rewrite mul_abs. unfold mul. simpl.
  (* the product has at least 105 digits: it is only shifted to the right *)
  assert (104 < Zdigits2 (Z.pos (m * m))) as Hdig.
  { apply Zdigits2_gt; [lia|]. rewrite Pos2Z.inj_mul.
    change (2 ^ 104) with (2 ^ 52 * 2 ^ 52). change (2 ^ (53 - 1)) with (2 ^ 52) in Hlo.
    nia. }
  assert (binary_round_aux prec emax false (Z.pos (m * m)) (e + e) loc_Exact
          = binary_round prec emax false (m * m) (e + e)) as ->.
  { unfold binary_round, shl_align. rewrite fexp_unfold.
    change (Z.pos (digits2_pos (m * m))) with (Zdigits2 (Z.pos (m * m))).
    destruct (Z.max (Zdigits2 (Z.pos (m * m)) + (e + e) - 53) (-1074) - (e + e))
      eqn:E; try reflexivity. lia. }
  assert (0 < d * d) as Hpos by nia.
  destruct (small_int_repr (d * d) ltac:(lia)) as (mt & et & Hbt & Het & Hmt).
  assert (of_Z (d * d) = S754_finite false mt et) as ->.
  { unfold of_Z. destruct (d * d) as [|p|p] eqn:Hp; try lia. simpl.
    apply (binary_round_small_int false p 0 (Z.pos p)); try done; lia. }
  apply (binary_round_small_int false (m * m) (e + e) (d * d)); try done; try lia.
  rewrite Pos2Z.inj_mul, Hm.
  replace (- (e + e)) with (- e + - e) by lia. rewrite Z.pow_add_r by lia.
  replace (d * d) with (Z.abs d * Z.abs d) by nia. ring.
Qed.

Lemma fma_zero_zero z : sign_clear z = true -> fma zero zero z = z.
Proof. by destruct z as [[]|[]| |[] m e]. Qed.

Lemma sign_clear_of_Z a : 0 <= a -> sign_clear (of_Z a) = true.
Proof. intros Ha. destruct a; [done|apply sign_clear_round|lia]. Qed.

(** Accumulating the square of a small integer onto a small integer is
    exact. *)
Lemma fma_square_of_Z d a :
  0 <= a -> d * d + a < 2 ^ 53 ->
  fma (of_Z d) (of_Z d) (of_Z a) = of_Z (d * d + a).
Proof.
  intros Ha Hsum. assert (0 <= d * d) as Hdd by nia.
  destruct (Z.eq_dec d 0) as [->|Hd0].
  { change (of_Z 0) with zero. by rewrite fma_zero_zero by by apply sign_clear_of_Z. }
  destruct (Z.eq_dec a 0) as [->|Ha0].
  { change (of_Z 0) with zero. rewrite fma_square_zero, Z.add_0_r.
    apply square_of_Z. lia. }
  assert (Z.abs d < 2 ^ 53) as Habs by nia.
  destruct (of_Z_small d ltac:(lia)) as (m & e & Hof & _ & He & Hm).
  destruct (of_Z_small a ltac:(lia)) as (ma & ea & Hofa & _ & Hea & Hma).
  replace (a <? 0) with false in Hofa by (symmetry; apply Z.ltb_ge; lia).
  rewrite fma_square_abs, Hof, Hofa. unfold fma. simpl SFabs. cbv iota beta.
  simpl xorb. cbv zeta. unfold cond_Zopp.
  set (e0 := Z.min (e + e) ea).
  assert (Z.pos (shl_align (m * m) (e + e) e0).1 = d * d * 2 ^ (- e0)) as ->.
  { pose proof (shl_align_small (d * d) (m * m) (e + e) e0) as H.
    replace (d * d <? 0) with false in H by (symmetry; apply Z.ltb_ge; lia).
    apply H; [|lia|lia].
    rewrite Pos2Z.inj_mul, Hm.
    replace (- (e + e)) with (- e + - e) by lia. rewrite Z.pow_add_r by lia.
    replace (Z.abs (d * d)) with (Z.abs d * Z.abs d) by (rewrite Z.abs_mul; lia).
    ring. }
  assert (Z.pos (shl_align ma ea e0).1 = a * 2 ^ (- e0)) as ->.
  { pose proof (shl_align_small a ma ea e0) as H.
    replace (a <? 0) with false in H by (symmetry; apply Z.ltb_ge; lia).
    apply H; [done|lia|lia]. }
  rewrite <- Z.mul_add_distr_r. apply normalize_small_int; lia.
Qed.

End ExactOps.

(** ** Quotients of the rounding, for any location *)

Section Positive.
Implicit Types (x y : float) (s : bool).

Lemma shr_quot mrs e n :
  0 <= shr_m mrs ->
  shr_m (shr mrs e n).1 = shr_m mrs / 2 ^ Z.max n 0
  /\ (shr mrs e n).2 = e + Z.max n 0.
Proof.
  intros Hm. destruct n as [|p|p]; simpl; try (rewrite Z.div_1_r; split; [done|lia]).
  split; [|done].
  apply (iter_pos_shift_inv shr_1
           (fun k r => 0 <= shr_m r /\ shr_m r = shr_m mrs / 2 ^ k)) with (k := 0);
    [|lia|by rewrite Z.div_1_r].
  intros k [m r s'] Hk [H0 Heq]. simpl in H0, Heq.
  assert (shr_m (shr_1 (Build_shr_record m r s')) = m / 2) as ->.
  { destruct m as [|[q|q|]|q]; cbn [shr_1 shr_m]; try lia; try reflexivity.
    - apply (Z.div_unique _ 2 _ 1); lia.
    - apply (Z.div_unique _ 2 _ 0); lia. }
  split; [apply Z.div_pos; lia|].
  rewrite Heq, Z.div_div, Z.pow_add_r by (try apply pow2_pos; lia). reflexivity.
Qed.

(** The quotients [binary_round_aux] goes through, whatever the location
    of the mantissa it is given. *)
Lemma binary_round_aux_quot s mx ex lx :
  0 <= mx ->
  let k := Z.max (fexp prec emax (Zdigits2 mx + ex) - ex) 0 in
  exists m1,
    mx / 2 ^ k <= m1 <= mx / 2 ^ k + 1
    /\ binary_round_aux prec emax s mx ex lx
       = round_result s
           (m1 / 2 ^ Z.max (fexp prec emax (Zdigits2 m1 + (ex + k)) - (ex + k)) 0)
           (ex + k + Z.max (fexp prec emax (Zdigits2 m1 + (ex + k)) - (ex + k)) 0).
Proof.
  intros Hmx k. unfold binary_round_aux, shr_fexp.
  assert (shr_m (shr_record_of_loc mx lx) = mx) as Hm0 by (by destruct lx as [|[]]).
  destruct (shr_quot (shr_record_of_loc mx lx) ex
              (fexp prec emax (Zdigits2 mx + ex) - ex) ltac:(lia)) as [Hq He].
  rewrite Hm0 in Hq. fold k in Hq, He.
  destruct (shr (shr_record_of_loc mx lx) ex _) as [mrs e1]. simpl in Hq, He. subst e1.
  pose proof (round_nearest_even_bounds mrs) as Hb.
  set (m1 := round_nearest_even (shr_m mrs) (loc_of_shr_record mrs)) in *.
  exists m1. split; [lia|].
  assert (0 <= mx / 2 ^ k) by (apply Z.div_pos; [lia|apply pow2_pos; lia]).
  destruct (shr_quot (shr_record_of_loc m1 loc_Exact) (ex + k)
              (fexp prec emax (Zdigits2 m1 + (ex + k)) - (ex + k))) as [Hq2 He2];
    [simpl; lia|].
  destruct (shr (shr_record_of_loc m1 loc_Exact) (ex + k) _) as [mrs2 e2].
  simpl in Hq2, He2. subst e2. rewrite Hq2. reflexivity.
Qed.

(** Above the smallest exponent a positive mantissa is not rounded to zero. *)
Lemma round_aux_positive s mx ex lx :
  0 < mx -> -1074 <= ex ->
  let r := binary_round_aux prec emax s mx ex lx in
  r = S754_infinity s \/ exists m e, r = S754_finite s m e.
Proof.
  intros Hmx Hex. destruct (binary_round_aux_quot s mx ex lx ltac:(lia)) as (m1 & Hm1 & ->).
  rewrite !fexp_unfold in *.
  assert (forall m e, 0 < m -> -1074 <= e ->
            1 <= m / 2 ^ Z.max (Z.max (Zdigits2 m + e - 53) (-1074) - e) 0) as Hquot.
  { intros m e Hm He. pose proof (Zdigits2_bounds m Hm) as [Hlo _].
    assert (1 <= Zdigits2 m) by (destruct m; simpl; lia).
    set (k := Z.max (Z.max (Zdigits2 m + e - 53) (-1074) - e) 0).
    pose proof (pow2_pos k ltac:(lia)).
    apply Z.div_le_lower_bound; [lia|].
    assert (2 ^ k <= 2 ^ (Zdigits2 m - 1)) by (apply Z.pow_le_mono_r; lia). lia. }
  pose proof (Hquot mx ex Hmx Hex) as H1.
  set (k := Z.max (Z.max (Zdigits2 mx + ex - 53) (-1074) - ex) 0) in *.
  pose proof (Hquot m1 (ex + k) ltac:(lia) ltac:(lia)) as H2.
  unfold round_result.
  destruct (m1 / 2 ^ _) as [|m|m]; try lia.
  destruct (_ <=? _); eauto.
Qed.

Lemma sqrt_positive m e :
  -2148 <= e ->
  sqrt (S754_finite false m e) = S754_infinity false
  \/ exists m' e', sqrt (S754_finite false m e) = S754_finite false m' e'.
Proof.
  intros He. unfold sqrt, SFsqrt, SFsqrt_core_binary.
  set (e' := Z.min _ (Z.div2 e)).
  assert (e' <= Z.div2 e) as Hle by lia.
  assert (-1074 <= e') as Hlo.
  { unfold e'. rewrite fexp_unfold. rewrite Z.div2_div.
    assert (-1074 <= e / 2) by (apply Z.div_le_lower_bound; lia). lia. }
  rewrite Z.div2_div in Hle.
  assert (2 * (e / 2) <= e) by (apply Z.mul_div_le; lia).
  set (m' := match e - 2 * e' with 0 => Z.pos m | Z.pos _ => _ | Z.neg _ => 0 end).
  assert (1 <= m') as Hm'.
  { unfold m'. destruct (e - 2 * e') as [|p|p] eqn:E; try lia.
    rewrite Z.shiftl_mul_pow2 by lia. pose proof (pow2_pos (Z.pos p) ltac:(lia)). nia. }
  pose proof (Z.sqrtrem_sqrt m') as Hs. pose proof (Z.sqrt_pos m') as Hp.
  destruct (Z.sqrtrem m') as [q r]. simpl in Hs. subst q.
  apply round_aux_positive; lia.
Qed.

End Positive.

(** ** The square root of a small integer *)

Section Sqrt.
Implicit Types (x y : float) (s : bool).





End Sqrt.

(** ** Edge cases of [calc_range] and [calc_toa] *)

Section Edge.
Implicit Types (x y tot : float) (a b p : ndarray) (d : vec3 float).

Lemma add_nan_r x : (x + S754_nan)%f64 = S754_nan.
Proof. by destruct x as [[]|[]| |]. Qed.

Lemma fma_nan_r x : fma x x S754_nan = S754_nan.
Proof. by destruct x as [[]|[]| |[] m e]. Qed.

Lemma sub_nan_r x : (x - S754_nan)%f64 = S754_nan.
Proof. by destruct x as [[]|[]| |]. Qed.

Lemma is_nan_eq x : is_nan x = true -> x = S754_nan.
Proof. by destruct x. Qed.

Lemma norm3_nan d :
  is_nan (vx d) || is_nan (vy d) || is_nan (vz d) = true -> norm3 d = S754_nan.
Proof.
  destruct d as [d1 d2 d3]. unfold norm3. cbn [vx vy vz].
  rewrite !orb_true_iff. intros [[H|H]|H]; apply is_nan_eq in H; subst.
  - change (S754_nan * S754_nan)%f64 with S754_nan. by rewrite !fma_nan_r.
  - change (fma S754_nan S754_nan _) with S754_nan. by rewrite fma_nan_r.
  - reflexivity.
Qed.

Lemma subtract_nan a b :
  has_nan a = true ->
  let d := astype_float (subtract a b) in
  is_nan (vx d) || is_nan (vy d) || is_nan (vz d) = true.
Proof.
  destruct a as [u|[a1 a2 a3]]; simpl has_nan; [discriminate|].
  assert (forall x y, is_nan x = true -> is_nan (x - y)%f64 = true) as Hsub
    by (intros x y H; apply is_nan_eq in H; subst; reflexivity).
  destruct b as [[b1 b2 b3]|[b1 b2 b3]]; cbn -[sub of_Z];
    rewrite !orb_true_iff; intros [[H|H]|H]; rewrite (Hsub _ _ H);
    tauto.
Qed.

Lemma calc_range_diag p : all_finite p = true -> calc_range p p = zero.
Proof.
  intros Hp. unfold calc_range. rewrite linalg_norm_norm3.
  destruct p as [[p1 p2 p3]|[p1 p2 p3]];
    unfold subtract, astype_float, vzip, vmap, all_finite in *; cbn [vx vy vz] in *.
  - rewrite !Z.sub_diag. reflexivity.
  - apply andb_true_iff in Hp as [Hp H3]. apply andb_true_iff in Hp as [H1 H2].
    rewrite !sub_diag by done. reflexivity.
Qed.

Lemma add_finite_not_nan tot x :
  is_finite tot = true -> is_nan x = false -> is_nan (tot + x)%f64 = false.
Proof.
  f64_unfold. destruct tot as [[]|[]| |st mt et], x as [[]|[]| |sx mx ex];
    simpl; try congruence.
  intros _ _. apply normalize_not_nan.
Qed.

Lemma wrap64_small z : z * z < 2 ^ 53 -> wrap64 z = z.
Proof. intros Hz. apply wrap64_id. nia. Qed.

End Edge.

(** X1: whatever the two arrays hold, [calc_range] returns NaN or a number
    whose sign bit is clear: never a negative number, never [-0.0]. *)
Theorem calc_range_sign (a b : ndarray) : sign_clear (calc_range a b) = true.
Proof. apply sign_clear_calc_range. Qed.

(** X2: on positions and a time of transmission that are real numbers,
    neither [calc_range] nor [calc_toa] returns NaN. *)
Theorem calc_never_nan_on_reals (tot : float) (a b : ndarray) :
  all_finite a = true -> all_finite b = true -> is_finite tot = true ->
  is_nan (calc_range a b) = false /\ is_nan (calc_toa tot a b) = false.
Proof.
  intros Ha Hb Ht. pose proof (calc_range_not_nan a b Ha Hb) as Hn.
  split; [done|]. unfold calc_toa. apply add_finite_not_nan; [done|].
  apply div_c_not_nan; [apply sign_clear_calc_range|done].
Qed.

Lemma calc_never_nan_on_reals_example :
  let tot := (of_Z (-5) / of_Z 4)%f64 in
  let a := array_float (of_Z 7) (of_Z (-3) / of_Z 2)%f64 zero in
  let b := array_int 3 100 75 in
  (all_finite a = true /\ all_finite b = true /\ is_finite tot = true)
  /\ is_nan (calc_range a b) = false /\ is_nan (calc_toa tot a b) = false.
Proof.
  intros tot a b. split; [repeat split; reflexivity|].
  apply (calc_never_nan_on_reals tot a b); reflexivity.
Defined.

(** X3: a signal sent at time [0.0] arrives after the propagation delay:
    [calc_toa 0.0 a b] is [calc_range a b / c], for all arrays. *)
Theorem calc_toa_at_zero (a b : ndarray) :
  calc_toa zero a b = (calc_range a b / c)%f64.
Proof.
  unfold calc_toa. apply add_zero_l, sign_clear_div_c, sign_clear_calc_range.
Qed.

(** X4: a receiver at the position of the transmitter hears the signal when
    it is sent: for a real-valued position [p] and a [tot] that is not NaN,
    [calc_toa tot p p == tot], and the two are the same float unless [tot]
    is [-0.0]. *)
Theorem calc_toa_same_place (tot : float) (p : ndarray) :
  all_finite p = true -> is_nan tot = false ->
  (calc_toa tot p p =? tot)%f64 = true
  /\ (tot <> S754_zero true -> calc_toa tot p p = tot).
Proof.
  intros Hp Ht. unfold calc_toa. rewrite calc_range_diag by done.
  change (zero / c)%f64 with zero.
  destruct tot as [[]|[]| |s m e]; try done; (split; [|done]).
  change (S754_finite s m e + zero)%f64 with (S754_finite s m e).
  by apply eqb_refl.
Qed.

Lemma calc_toa_same_place_example :
  let tot := (of_Z (-5) / of_Z 4)%f64 in
  let p := array_float (of_Z 7) (of_Z (-3) / of_Z 2)%f64 zero in
  (all_finite p = true /\ is_nan tot = false)
  /\ (calc_toa tot p p =? tot)%f64 = true
  /\ (tot <> S754_zero true -> calc_toa tot p p = tot).
Proof.
  intros tot p. split; [split; reflexivity|].
  apply (calc_toa_same_place tot p); reflexivity.
Defined.

(** X5: a NaN coordinate is not an error: if an array has a NaN entry, then
    [calc_range] and [calc_toa] return NaN, whichever side the array is on
    and whatever the other arguments are. *)
Theorem nan_propagates (tot : float) (a b : ndarray) :
  has_nan a = true ->
  calc_range a b = S754_nan /\ calc_range b a = S754_nan
  /\ calc_toa tot a b = S754_nan /\ calc_toa tot b a = S754_nan.
Proof.
  intros Ha.
  assert (calc_range a b = S754_nan) as Hab.
  { unfold calc_range. rewrite linalg_norm_norm3. by apply norm3_nan, subtract_nan. }
  assert (calc_range b a = S754_nan) as Hba by (by rewrite calc_range_swap).
  unfold calc_toa. rewrite Hab, Hba.
  change (S754_nan / c)%f64 with S754_nan. by rewrite add_nan_r.
Qed.

Lemma nan_propagates_example :
  let a := array_float zero S754_nan (of_Z 2) in
  let b := array_int 3 100 75 in
  has_nan a = true
  /\ calc_range a b = S754_nan /\ calc_range b a = S754_nan
  /\ calc_toa (of_Z 1) a b = S754_nan /\ calc_toa (of_Z 1) b a = S754_nan.
Proof.
  intros a b. split; [reflexivity|].
  apply (nan_propagates (of_Z 1) a b). reflexivity.
Defined.

(** X6: on [int64] positions whose squared distance is below [2^53], the
    squares and their sum are exact, so [calc_range] is the binary64 square
    root of the exact integer [dx^2 + dy^2 + dz^2]: the square root is the
    only rounding. *)
Theorem calc_range_int_grid (u v : vec3 Z) :
  let dx := vx u - vx v in
  let dy := vy u - vy v in
  let dz := vz u - vz v in
  dx * dx + dy * dy + dz * dz < 2 ^ 53 ->
  calc_range (Int64Array u) (Int64Array v)
  = sqrt (of_Z (dx * dx + dy * dy + dz * dz)).
Proof.
  intros dx dy dz Hsum. unfold calc_range. rewrite linalg_norm_norm3.
  unfold subtract, astype_float, vzip, vmap, norm3. cbn [vx vy vz].
  fold dx dy dz.
  assert (0 <= dx * dx) by nia. assert (0 <= dy * dy) by nia.
  assert (0 <= dz * dz) by nia.
  rewrite !wrap64_small by lia. rewrite square_of_Z by lia.
  rewrite !fma_square_of_Z by lia. f_equal. f_equal. ring.
Qed.

Lemma calc_range_int_grid_example :
  let u := Vec3 1 1 0 in
  let v := Vec3 50 50 25 in
  (1 - 50) * (1 - 50) + (1 - 50) * (1 - 50) + (0 - 25) * (0 - 25) < 2 ^ 53
  /\ calc_range (Int64Array u) (Int64Array v) = sqrt (of_Z 5427).
Proof.
  intros u v. split; [reflexivity|].
  apply (calc_range_int_grid u v). reflexivity.
Defined.

(** X7: integer and float literals are interchangeable: for [int64]
    positions with coordinates below [2^52] in magnitude, [calc_range] on
    the [int64] arrays equals [calc_range] on the same positions given as
    [float64] arrays. *)
Theorem calc_range_int_as_float (u v : vec3 Z) :
  (Z.abs (vx u) < 2 ^ 52 /\ Z.abs (vy u) < 2 ^ 52 /\ Z.abs (vz u) < 2 ^ 52) ->
  (Z.abs (vx v) < 2 ^ 52 /\ Z.abs (vy v) < 2 ^ 52 /\ Z.abs (vz v) < 2 ^ 52) ->
  calc_range (Int64Array u) (Int64Array v)
  = calc_range (Float64Array (vmap of_Z u)) (Float64Array (vmap of_Z v)).
Proof.
  intros (Hu1 & Hu2 & Hu3) (Hv1 & Hv2 & Hv3). unfold calc_range.
  rewrite !linalg_norm_norm3.
  unfold subtract, astype_float, vzip, vmap. cbn [vx vy vz].
  change (2 ^ 52) with 4503599627370496 in *.
  rewrite !wrap64_id by (change (2 ^ 63) with 9223372036854775808; lia).
  rewrite !sub_of_Z by (change (2 ^ 53) with 9007199254740992; lia).
  reflexivity.
Qed.

Lemma calc_range_int_as_float_example :
  let u := Vec3 1 1 0 in
  let v := Vec3 3 100 75 in
  ((Z.abs 1 < 2 ^ 52 /\ Z.abs 1 < 2 ^ 52 /\ Z.abs 0 < 2 ^ 52)
   /\ (Z.abs 3 < 2 ^ 52 /\ Z.abs 100 < 2 ^ 52 /\ Z.abs 75 < 2 ^ 52))
  /\ calc_range (Int64Array u) (Int64Array v)
     = calc_range (Float64Array (vmap of_Z u)) (Float64Array (vmap of_Z v)).
Proof.
  intros u v. split; [repeat split|].
  apply (calc_range_int_as_float u v); repeat split.
Defined.

(** X8: on [int64] positions whose squared distance is below [2^53], the
    range is zero only from a position to itself: [calc_range u v == 0.0]
    exactly when [u] and [v] are the same position. *)
Theorem calc_range_int_zero_iff (u v : vec3 Z) :
  let dx := vx u - vx v in
  let dy := vy u - vy v in
  let dz := vz u - vz v in
  dx * dx + dy * dy + dz * dz < 2 ^ 53 ->
  (calc_range (Int64Array u) (Int64Array v) =? zero)%f64 = true <-> u = v.
Proof.
  intros dx dy dz Hsum.
  assert (calc_range (Int64Array u) (Int64Array v)
          = sqrt (of_Z (dx * dx + dy * dy + dz * dz))) as ->.
  { unfold calc_range. rewrite linalg_norm_norm3.
    unfold subtract, astype_float, vzip, vmap, norm3. cbn [vx vy vz]. fold dx dy dz.
    assert (0 <= dx * dx) by nia. assert (0 <= dy * dy) by nia.
    assert (0 <= dz * dz) by nia.
    rewrite !wrap64_small by lia. rewrite square_of_Z by lia.
    rewrite !fma_square_of_Z by lia. f_equal. f_equal. ring. }
  destruct (Z.eq_dec (dx * dx + dy * dy + dz * dz) 0) as [H0|Hne].
  - rewrite H0. split; [intros _|done].
    assert (0 <= dx * dx) by nia. assert (0 <= dy * dy) by nia.
    assert (0 <= dz * dz) by nia.
    assert (dx = 0) by (cut (dx * dx = 0); [intros E; apply Z.mul_eq_0 in E; tauto|lia]).
    assert (dy = 0) by (cut (dy * dy = 0); [intros E; apply Z.mul_eq_0 in E; tauto|lia]).
    assert (dz = 0) by (cut (dz * dz = 0); [intros E; apply Z.mul_eq_0 in E; tauto|lia]).
    destruct u, v. unfold dx, dy, dz in *. cbn [vx vy vz] in *. f_equal; lia.
  - assert (0 < dx * dx + dy * dy + dz * dz) as Hpos by nia.
    destruct (of_Z_small (dx * dx + dy * dy + dz * dz) ltac:(lia))
      as (m & e & Hof & _ & He & _).
    replace (_ <? 0) with false in Hof by (symmetry; apply Z.ltb_ge; lia).
    rewrite Hof. split.
    + destruct (sqrt_positive m e ltac:(lia)) as [->|(m' & e' & ->)]; discriminate.
    + intros ->. unfold dx, dy, dz in Hne. lia.
Qed.

Lemma calc_range_int_zero_iff_example :
  let u := Vec3 1 1 0 in
  let v := Vec3 1 1 1 in
  (1 - 1) * (1 - 1) + (1 - 1) * (1 - 1) + (0 - 1) * (0 - 1) < 2 ^ 53
  /\ ((calc_range (Int64Array u) (Int64Array v) =? zero)%f64 = true <-> u = v).
Proof.
  intros u v. split; [reflexivity|].
  apply (calc_range_int_zero_iff u v). reflexivity.
Defined.

Section Infinite.
Implicit Types (x y tot : float) (a b : ndarray) (d : vec3 float).

Lemma add_inf_l y :
  sign_clear y = true -> is_nan y = false -> (pinf + y)%f64 = pinf.
Proof. by destruct y as [[]|[]| |[] m e]. Qed.

Lemma add_inf_r x :
  sign_clear x = true -> is_nan x = false -> (x + pinf)%f64 = pinf.
Proof. by destruct x as [[]|[]| |[] m e]. Qed.

Lemma square_inf x :
  is_finite x || is_nan x = false -> (x * x)%f64 = pinf.
Proof. by destruct x as [[]|[]| |[] m e]. Qed.

Lemma sub_inf x y :
  is_finite x || is_nan x = false -> is_finite y = true ->
  is_finite (x - y)%f64 || is_nan (x - y)%f64 = false.
Proof. by destruct x as [[]|[]| |[] m e], y as [[]|[]| |[] m' e']. Qed.

Lemma fma_square_inf x z :
  is_finite x || is_nan x = false -> sign_clear z = true -> is_nan z = false ->
  fma x x z = pinf.
Proof. by destruct x as [[]|[]| |[] m e], z as [[]|[]| |[] mz ez]. Qed.

Lemma fma_square_acc_inf x : is_nan x = false -> fma x x pinf = pinf.
Proof. by destruct x as [[]|[]| |[] m e]. Qed.

Lemma norm3_inf d :
  is_nan (vx d) = false -> is_nan (vy d) = false -> is_nan (vz d) = false ->
  negb (is_finite (vx d) || is_nan (vx d))
  || negb (is_finite (vy d) || is_nan (vy d))
  || negb (is_finite (vz d) || is_nan (vz d)) = true ->
  norm3 d = pinf.
Proof.
  destruct d as [d1 d2 d3]. cbn [vx vy vz]. intros H1 H2 H3 Hinf. unfold norm3.
  cbn [vx vy vz].
  assert (fma d3 d3 (fma d2 d2 (d1 * d1)%f64) = pinf) as ->; [|reflexivity].
  pose proof (sign_clear_square d1) as S1. pose proof (square_not_nan d1 H1) as N1.
  rewrite !orb_true_iff, !negb_true_iff in Hinf. destruct Hinf as [[Hi|Hi]|Hi].
  - rewrite (square_inf d1 Hi). by rewrite !fma_square_acc_inf.
  - rewrite (fma_square_inf d2 _ Hi S1 N1). by rewrite fma_square_acc_inf.
  - apply fma_square_inf; [done| |].
    + by apply sign_clear_fma_square.
    + by apply fma_square_not_nan.
Qed.

Lemma of_Z_int64_finite z : - 2 ^ 63 <= z < 2 ^ 63 -> is_finite (of_Z z) = true.
Proof.
  intros Hz. unfold of_Z. destruct z as [|W|W]; [done| |]; simpl.
  - destruct (binary_round_down false W 0 4503599627370496 12)
      as [->|(m' & e' & -> & _)]; try done.
    change (2 ^ (12 - 0)) with 4096. change (2 ^ 63) with 9223372036854775808 in Hz. lia.
  - destruct (binary_round_down true W 0 4503599627370496 12)
      as [->|(m' & e' & -> & _)]; try done.
    change (2 ^ (12 - 0)) with 4096. change (2 ^ 63) with 9223372036854775808 in Hz. lia.
Qed.

Lemma subtract_inf a b :
  has_inf a = true -> has_nan a = false ->
  all_finite b = true -> int64_entries b = true ->
  norm3 (astype_float (subtract a b)) = pinf.
Proof.
  intros Hinf Hnan Hb Hrange.
  destruct a as [u|[a1 a2 a3]]; [discriminate|].
  simpl in Hinf, Hnan. apply orb_false_iff in Hnan as [Hnan N3].
  apply orb_false_iff in Hnan as [N1 N2].
  assert (forall x y, is_nan x = false -> is_finite y = true ->
            is_nan (x - y)%f64 = false) as Hsub.
  { intros x y Hx Hy. apply sub_not_nan; [done|by apply finite_not_nan|].
    rewrite Hy. apply orb_true_r. }
  assert (forall x y, is_finite y = true ->
            negb (is_finite x || is_nan x) = true ->
            negb (is_finite (x - y)%f64 || is_nan (x - y)%f64) = true) as Hkeep.
  { intros x y Hy Hx. apply negb_true_iff in Hx. apply negb_true_iff.
    by apply sub_inf. }
  assert (exists y1 y2 y3 : float,
            astype_float b = Vec3 y1 y2 y3
            /\ is_finite y1 = true /\ is_finite y2 = true /\ is_finite y3 = true)
    as (y1 & y2 & y3 & Hb' & F1 & F2 & F3).
  { destruct b as [[z1 z2 z3]|[y1 y2 y3]]; simpl in Hb, Hrange.
    - exists (of_Z z1), (of_Z z2), (of_Z z3). split; [done|].
      rewrite !andb_true_iff, !Z.leb_le, !Z.ltb_lt in Hrange.
      repeat split; apply of_Z_int64_finite; lia.
    - exists y1, y2, y3. rewrite !andb_true_iff in Hb. tauto. }
  assert (astype_float (subtract (Float64Array (Vec3 a1 a2 a3)) b)
          = Vec3 (a1 - y1)%f64 (a2 - y2)%f64 (a3 - y3)%f64) as ->.
  { destruct b; simpl in Hb' |- *; by rewrite Hb'. }
  apply norm3_inf; cbn [vx vy vz]; try (by apply Hsub).
  rewrite !orb_true_iff in Hinf |- *.
  destruct Hinf as [[Hi|Hi]|Hi]; [left; left|left; right|right]; by apply Hkeep.
Qed.

End Infinite.

(** X13: an infinite coordinate is not an error either: if an array has an
    infinite entry and no NaN, and the other position is real-valued, then
    [calc_range] is [+inf] in either order, and so is [calc_toa] for every
    finite [tot]. *)
Theorem inf_propagates (tot : float) (a b : ndarray) :
  has_inf a = true -> has_nan a = false ->
  all_finite b = true -> int64_entries b = true ->
  is_finite tot = true ->
  calc_range a b = S754_infinity false /\ calc_range b a = S754_infinity false
  /\ calc_toa tot a b = S754_infinity false
  /\ calc_toa tot b a = S754_infinity false.
Proof.
  intros Hinf Hnan Hb Hrange Ht.
  assert (calc_range a b = pinf) as Hab.
  { unfold calc_range. rewrite linalg_norm_norm3. by apply subtract_inf. }
  assert (calc_range b a = pinf) as Hba by (by rewrite calc_range_swap).
  unfold calc_toa. rewrite Hab, Hba. change (pinf / c)%f64 with pinf.
  by destruct tot as [[]|[]| |[] m e].
Qed.

Lemma inf_propagates_example :
  let a := array_float zero (S754_infinity true) (of_Z 2) in
  let b := array_int 3 100 75 in
  let tot := of_Z 1 in
  (has_inf a = true /\ has_nan a = false /\ all_finite b = true
   /\ int64_entries b = true /\ is_finite tot = true)
  /\ calc_range a b = S754_infinity false /\ calc_range b a = S754_infinity false
  /\ calc_toa tot a b = S754_infinity false
  /\ calc_toa tot b a = S754_infinity false.
Proof.
  intros a b tot. split; [repeat split; reflexivity|].
  apply (inf_propagates tot a b); reflexivity.
Defined.

(** ** The range as a Euclidean norm *)


(** Two values that tell the fused accumulation from a sum of rounded
    squares, which would end in [...894] and [...942]: the norm of
    [(0.1, 0.4, 0.8)] is [0.9], and that of [(1e9, 100000000001, 0)] ends in
    [...943]. *)
Lemma calc_range_fused_examples :
  calc_range (array_float (of_Z 1 / of_Z 10) (of_Z 4 / of_Z 10) (of_Z 8 / of_Z 10))%f64
             (array_float zero zero zero)
  = (of_Z 9 / of_Z 10)%f64
  /\ (of_Z 9 / of_Z 10)%f64 = S754_finite false 8106479329266893 (-53)
  /\ calc_range (array_float (of_Z 1000000000) (of_Z 100000000001) zero)
                (array_float zero zero zero)
     = S754_finite false 6553927671873943 (-16).
Proof. vm_compute. repeat split. Qed.




(** ** The heap of emitter objects *)

Section Heap2.
Implicit Types (h : heap) (l self : loc) (o : object) (v pos : pyval).

Lemma init_fresh cls pos h :
  setattr (fresh (dom h)) "vel" (PyInt 0)
    (setattr (fresh (dom h)) "pos" pos (<[fresh (dom h) := Object cls ∅]> h))
  = <[fresh (dom h) := Object cls {["pos" := pos; "vel" := PyInt 0]}]> h.
Proof.
  unfold setattr. rewrite !alter_insert_eq. reflexivity.
Qed.

(** A constructor call is the insertion of the finished object at an unused
    address. *)
Lemma emitter_heap h :
  emitter h = (fresh (dom h),
               <[fresh (dom h) := Object cls_emitter {["pos" := PyInt 0; "vel" := PyInt 0]}]> h).
Proof. unfold emitter, emitter_init. simpl. f_equal. apply init_fresh. Qed.

Lemma stat_emitter_heap pos h :
  stat_emitter pos h
  = (fresh (dom h),
     <[fresh (dom h) := Object cls_stat_emitter {["pos" := pos; "vel" := PyInt 0]}]> h).
Proof. unfold stat_emitter, stat_emitter_init. simpl. f_equal. apply init_fresh. Qed.

Lemma fresh_lookup h : h !! fresh (dom h) = None.
Proof. apply not_elem_of_dom, is_fresh. Qed.

Lemma step_inv h h' :
  step h h' ->
  exists o, object_ok o /\ h' = <[fresh (dom h) := o]> h.
Proof.
  intros [h0|pos h0].
  - rewrite emitter_heap. eexists. split; [|reflexivity]. by exists (PyInt 0).
  - rewrite stat_emitter_heap. eexists. split; [|reflexivity]. by exists pos.
Qed.

End Heap2.

(** X9: the call [stat_emitter(pos)] returns an address that was not in use
    and puts there an object of class [stat_emitter] with exactly two
    attributes: [pos], the argument as given, and [vel], the integer 0. *)
Theorem stat_emitter_object (pos : pyval) (h : heap) :
  let '(self, h') := stat_emitter pos h in
  h !! self = None
  /\ h' !! self = Some (Object cls_stat_emitter {["pos" := pos; "vel" := PyInt 0]})
  /\ getattr h' self "pos" = Some pos.
Proof.
  rewrite stat_emitter_heap. split; [apply fresh_lookup|]. split.
  - apply lookup_insert_eq.
  - unfold getattr. rewrite lookup_insert_eq. simpl. apply lookup_insert_eq.
Qed.

(** X10: both constructors only add to the heap: every object that was
    there is still there and unchanged, and the heap has exactly one
    address more, the one the call returns. *)
Theorem constructors_extend_heap (pos : pyval) (h : heap) :
  (h ⊆ (emitter h).2 /\ dom (emitter h).2 = {[(emitter h).1]} ∪ dom h
   /\ size (emitter h).2 = S (size h))
  /\ (h ⊆ (stat_emitter pos h).2
      /\ dom (stat_emitter pos h).2 = {[(stat_emitter pos h).1]} ∪ dom h
      /\ size (stat_emitter pos h).2 = S (size h)).
Proof.
  rewrite emitter_heap, stat_emitter_heap. simpl.
  pose proof (fresh_lookup h) as Hf.
  repeat split; try (by apply insert_subseteq); try apply dom_insert_L;
    by apply map_size_insert_None.
Qed.

(** X11: in every heap that constructor calls build from the empty heap,
    every object has exactly the attributes [pos] and [vel], its [vel] is
    the integer 0, and if its class is [emitter] its [pos] is 0 too. *)
Theorem reachable_objects_ok (h : heap) :
  rtc step ∅ h -> forall l o, h !! l = Some o -> object_ok o.
Proof.
  revert h. apply (rtc_ind_r (fun h => forall l o, h !! l = Some o -> object_ok o)).
  - intros l o Hl. by rewrite lookup_empty in Hl.
  - intros h1 h2 _ Hstep IH.
    destruct (step_inv _ _ Hstep) as (o' & Hok & ->). intros l o Hl.
    apply lookup_insert_Some in Hl as [[_ <-]|[_ Hl]]; [done|by eapply IH].
Qed.

Lemma reachable_objects_ok_example :
  let h := (stat_emitter (PyArray (array_int 1 1 0)) (emitter ∅).2).2 in
  let l := (emitter ∅).1 in
  let o := Object cls_emitter {["pos" := PyInt 0; "vel" := PyInt 0]} in
  (rtc step ∅ h /\ h !! l = Some o) /\ object_ok o.
Proof.
  intros h l o.
  assert (rtc step ∅ h) as Hsteps
    by (eapply rtc_l; [apply step_emitter|apply rtc_once, step_stat_emitter]).
  assert (h !! l = Some o) as Hl by (vm_compute; reflexivity).
  split; [by split|]. apply (reachable_objects_ok h Hsteps l o Hl).
Defined.

